(** * The ARP module of IncludeOS (src/net/ip4/arp.cpp)

    A shallow embedding of [net::Arp]: the cache, the queue of packets waiting
    for resolution, the two timers, the four counters, and the calls made on
    the link-layer delegate.  Every member function of arp.cpp is a function
    on the record [Arp]; [Expects] is the only way a call can fail and is the
    [Contract_violation] outcome of [result]. *)

From stdpp Require Import base option list gmap fin_maps.
From Stdlib Require Import ZArith Lia.

(** ** Addresses, headers, packets *)

(** [IP4::addr] is its 32-bit [whole], [MAC::Addr] its 48 bits; both are [Z]. *)

(** Modelled from the spec: [IP4::ADDR_BCAST] (net/ip4/addr.hpp is not under
    src/), 255.255.255.255. *)
Definition ADDR_BCAST : Z := 4294967295.

(** Modelled from the spec: [MAC::BROADCAST] (hw/mac_addr.hpp is not under
    src/), ff:ff:ff:ff:ff:ff. *)
Definition MAC_BROADCAST : Z := 281474976710655.

(** Modelled from the spec: [Arp::header] and the opcode constants (arp.hpp is
    not under src/); the 28 bytes of the wire format as a packed struct. *)
Record header := mk_header {
  htype : Z;
  ptype : Z;
  hlen_plen : Z;
  opcode : Z;
  shwaddr : Z;
  sipaddr : Z;
  dhwaddr : Z;
  dipaddr : Z
}.

Definition H_request : Z := 1.
Definition H_reply : Z := 2.
Definition H_htype_eth : Z := 1.
Definition H_ptype_ip4 : Z := 2048.
Definition H_hlen_plen : Z := 1540.

Inductive Ethertype := Ethertype_ARP | Ethertype_IP4.

Global Instance Ethertype_eq_dec : EqDecision Ethertype.
Proof. solve_decision. Defined.

(** A packet buffer.  [pckt_size] is [size()]; [pckt_layer_begin] is what
    [reinterpret_cast<header*>(pckt->layer_begin())] reads, that is the first
    28 bytes of the buffer's storage seen through [header], whatever [size()]
    says; [pckt_body] is the rest of the data; [pckt_chain_] is the next
    buffer of the chain. *)
#[warnings="-register-all"] Inductive Packet := mk_Packet {
  pckt_size : Z;
  pckt_layer_begin : header;
  pckt_body : list Z;
  pckt_chain_ : option Packet
}.

(** Modelled from the spec: [Packet::chain] (net/packet.hpp is not under
    src/), which appends at the tail of the chain. *)
Fixpoint chain (q p : Packet) : Packet :=
  match q with
  | mk_Packet sz l b c =>
      mk_Packet sz l b (Some (match c with None => p | Some n => chain n p end))
  end.

(** The buffers of a chain, head first, each without its link. *)
Fixpoint buffers (q : Packet) : list Packet :=
  match q with
  | mk_Packet sz l b c =>
      mk_Packet sz l b None :: match c with None => [] | Some n => buffers n end
  end.

(** Modelled from the spec: [Stack::create_packet] with [PacketArp::init],
    [set_dest_mac] and [set_opcode] (net/ip4/packet_arp.hpp is not under
    src/).  [init] fills hardware type, protocol type, lengths, sender MAC,
    sender IPv4 and target IPv4 of a fresh buffer of 28 bytes. *)
Definition PacketArp_init (local_mac local_ip dest_ip : Z) : Packet :=
  mk_Packet 28
    (mk_header H_htype_eth H_ptype_ip4 H_hlen_plen 0 local_mac local_ip 0 dest_ip)
    [] None.

Definition set_header (f : header → header) (p : Packet) : Packet :=
  mk_Packet (pckt_size p) (f (pckt_layer_begin p)) (pckt_body p) (pckt_chain_ p).

Definition set_dest_mac (m : Z) : Packet → Packet :=
  set_header (λ h, mk_header (htype h) (ptype h) (hlen_plen h) (opcode h)
                      (shwaddr h) (sipaddr h) m (dipaddr h)).

Definition set_opcode (op : Z) : Packet → Packet :=
  set_header (λ h, mk_header (htype h) (ptype h) (hlen_plen h) op
                      (shwaddr h) (sipaddr h) (dhwaddr h) (dipaddr h)).

(** ** Timers and cache entries *)

(** Modelled from the spec: [Timer] (util/timer.hpp is not under src/), a
    single-shot relative timer: [start] arms it (again), [stop] cancels it,
    and it is no longer running when its callback runs. *)
Inductive Timer := Timer_stopped | Timer_armed (d : Z).

Definition is_running (t : Timer) : bool :=
  match t with Timer_stopped => false | Timer_armed _ => true end.

Definition Timer_start (d : Z) (t : Timer) : Timer := Timer_armed d.
Definition Timer_stop (t : Timer) : Timer := Timer_stopped.

(** Modelled from the spec: [Arp::Cache_entry] (arp.hpp is not under src/): a
    MAC and the time of its last refresh; an entry is expired when
    [now - timestamp >= flush_interval]. *)
Record Cache_entry := mk_Cache_entry { mac : Z; timestamp : Z }.

Definition Cache_entry_update (now : Z) (e : Cache_entry) : Cache_entry :=
  mk_Cache_entry (mac e) now.

Definition Cache_entry_expired (now flush_interval : Z) (e : Cache_entry) : bool :=
  (flush_interval <=? now - timestamp e)%Z.

(** ** The module state *)

(** One call of the link-layer delegate: [linklayer_out_(pckt, dest, type)]. *)
Record Link_call := mk_Link_call {
  call_pckt : Packet;
  call_dest : Z;
  call_type : Ethertype
}.

(** What the module reads from its host at each call: [inet_.ip_addr()] and
    [RTC::time_since_boot()]. *)
Record Inet := mk_Inet { ip_addr : Z; time_since_boot : Z }.

Record Arp := mk_Arp {
  requests_rx_ : Z;
  requests_tx_ : Z;
  replies_rx_ : Z;
  replies_tx_ : Z;
  mac_ : Z;
  proxy_ : option (Z → bool);
  cache_ : gmap Z Cache_entry;
  waiting_packets_ : gmap Z Packet;
  resolve_timer_ : Timer;
  flush_timer_ : Timer;
  flush_interval_ : Z;
  linklayer_out_ : list Link_call   (* the calls made so far, oldest first *)
}.

(** [x++] on a [uint32_t] statistic. *)
Definition incr32 (x : Z) : Z := ((x + 1) mod 2 ^ 32)%Z.

Definition set_requests_rx (f : Z → Z) (s : Arp) : Arp :=
  mk_Arp (f (requests_rx_ s)) (requests_tx_ s) (replies_rx_ s) (replies_tx_ s)
    (mac_ s) (proxy_ s) (cache_ s) (waiting_packets_ s) (resolve_timer_ s)
    (flush_timer_ s) (flush_interval_ s) (linklayer_out_ s).

Definition set_requests_tx (f : Z → Z) (s : Arp) : Arp :=
  mk_Arp (requests_rx_ s) (f (requests_tx_ s)) (replies_rx_ s) (replies_tx_ s)
    (mac_ s) (proxy_ s) (cache_ s) (waiting_packets_ s) (resolve_timer_ s)
    (flush_timer_ s) (flush_interval_ s) (linklayer_out_ s).

Definition set_replies_rx (f : Z → Z) (s : Arp) : Arp :=
  mk_Arp (requests_rx_ s) (requests_tx_ s) (f (replies_rx_ s)) (replies_tx_ s)
    (mac_ s) (proxy_ s) (cache_ s) (waiting_packets_ s) (resolve_timer_ s)
    (flush_timer_ s) (flush_interval_ s) (linklayer_out_ s).

Definition set_replies_tx (f : Z → Z) (s : Arp) : Arp :=
  mk_Arp (requests_rx_ s) (requests_tx_ s) (replies_rx_ s) (f (replies_tx_ s))
    (mac_ s) (proxy_ s) (cache_ s) (waiting_packets_ s) (resolve_timer_ s)
    (flush_timer_ s) (flush_interval_ s) (linklayer_out_ s).

Definition set_proxy_ (p : option (Z → bool)) (s : Arp) : Arp :=
  mk_Arp (requests_rx_ s) (requests_tx_ s) (replies_rx_ s) (replies_tx_ s)
    (mac_ s) p (cache_ s) (waiting_packets_ s) (resolve_timer_ s)
    (flush_timer_ s) (flush_interval_ s) (linklayer_out_ s).

Definition set_cache (f : gmap Z Cache_entry → gmap Z Cache_entry) (s : Arp) : Arp :=
  mk_Arp (requests_rx_ s) (requests_tx_ s) (replies_rx_ s) (replies_tx_ s)
    (mac_ s) (proxy_ s) (f (cache_ s)) (waiting_packets_ s) (resolve_timer_ s)
    (flush_timer_ s) (flush_interval_ s) (linklayer_out_ s).

Definition set_waiting_packets (f : gmap Z Packet → gmap Z Packet) (s : Arp) : Arp :=
  mk_Arp (requests_rx_ s) (requests_tx_ s) (replies_rx_ s) (replies_tx_ s)
    (mac_ s) (proxy_ s) (cache_ s) (f (waiting_packets_ s)) (resolve_timer_ s)
    (flush_timer_ s) (flush_interval_ s) (linklayer_out_ s).

Definition set_resolve_timer (f : Timer → Timer) (s : Arp) : Arp :=
  mk_Arp (requests_rx_ s) (requests_tx_ s) (replies_rx_ s) (replies_tx_ s)
    (mac_ s) (proxy_ s) (cache_ s) (waiting_packets_ s) (f (resolve_timer_ s))
    (flush_timer_ s) (flush_interval_ s) (linklayer_out_ s).

Definition set_flush_timer (f : Timer → Timer) (s : Arp) : Arp :=
  mk_Arp (requests_rx_ s) (requests_tx_ s) (replies_rx_ s) (replies_tx_ s)
    (mac_ s) (proxy_ s) (cache_ s) (waiting_packets_ s) (resolve_timer_ s)
    (f (flush_timer_ s)) (flush_interval_ s) (linklayer_out_ s).

(** [linklayer_out_(pckt, dest, type)]: the call is appended to the record. *)
Definition linklayer_out (pckt : Packet) (dest : Z) (type : Ethertype) (s : Arp) : Arp :=
  mk_Arp (requests_rx_ s) (requests_tx_ s) (replies_rx_ s) (replies_tx_ s)
    (mac_ s) (proxy_ s) (cache_ s) (waiting_packets_ s) (resolve_timer_ s)
    (flush_timer_ s) (flush_interval_ s)
    (linklayer_out_ s ++ [mk_Link_call pckt dest type]).

(** The outcome of a call: it returns, or a contract ([Expects]) is violated. *)
Inductive result (A : Type) := Ok (a : A) | Contract_violation.
Arguments Ok {A} a.
Arguments Contract_violation {A}.

Global Instance result_bind : MBind result :=
  λ A B f r, match r with Ok a => f a | Contract_violation => Contract_violation end.

(** ** The member functions of arp.cpp *)

(** [Arp::Arp(Stack& inet)]: fresh statistics, the MAC of the link, nothing
    cached, nothing waiting, no timer running, no proxy. *)
Definition Arp_init (link_addr flush_interval : Z) : Arp :=
  mk_Arp 0 0 0 0 link_addr None ∅ ∅ Timer_stopped Timer_stopped flush_interval [].

(** [Arp::cache(ip, mac)] *)
Definition cache (inet : Inet) (ip m : Z) (s : Arp) : Arp :=
  match cache_ s !! ip with
  | Some entry =>
      if negb (mac entry =? m)%Z then
        set_cache (λ c, <[ip := mk_Cache_entry m (time_since_boot inet)]> (delete ip c)) s
      else
        set_cache (<[ip := Cache_entry_update (time_since_boot inet) entry]>) s
  | None =>
      let s1 := set_cache (<[ip := mk_Cache_entry m (time_since_boot inet)]>) s in
      if negb (is_running (flush_timer_ s1)) then
        set_flush_timer (Timer_start (flush_interval_ s1)) s1
      else s1
  end.

(** [Arp::arp_respond(hdr_in, ack_ip)] *)
Definition arp_respond (hdr_in : header) (ack_ip : Z) (s : Arp) : Arp :=
  let s1 := set_replies_tx incr32 s in
  let res := PacketArp_init (mac_ s1) ack_ip (sipaddr hdr_in) in
  let res := set_dest_mac (shwaddr hdr_in) res in
  let res := set_opcode H_reply res in
  let dest := shwaddr hdr_in in
  linklayer_out res dest Ethertype_ARP s1.

(** [Arp::arp_resolve(next_hop)], which is what [arp_resolver_] is bound to. *)
Definition arp_resolve (inet : Inet) (next_hop : Z) (s : Arp) : Arp :=
  let req := PacketArp_init (mac_ s) (ip_addr inet) next_hop in
  let req := set_dest_mac MAC_BROADCAST req in
  let req := set_opcode H_request req in
  let s1 := set_requests_tx incr32 s in
  linklayer_out req MAC_BROADCAST Ethertype_ARP s1.

(** [Arp::await_resolution(pckt, next_hop)] *)
Definition await_resolution (inet : Inet) (pckt : Packet) (next_hop : Z) (s : Arp) : Arp :=
  match waiting_packets_ s !! next_hop with
  | Some queue =>
      set_waiting_packets (<[next_hop := chain queue pckt]>) s
  | None =>
      let s1 := set_waiting_packets (<[next_hop := pckt]>) s in
      let s2 := arp_resolve inet next_hop s1 in
      set_resolve_timer (Timer_start 1) s2
  end.

(** [Arp::transmit(pckt, next_hop)], built without ARP_PASSTHROUGH. *)
Definition transmit (inet : Inet) (pckt : Packet) (next_hop : Z) (s : Arp) : result Arp :=
  if (pckt_size pckt =? 0)%Z then Contract_violation
  else if (next_hop =? ADDR_BCAST)%Z then
    Ok (linklayer_out pckt MAC_BROADCAST Ethertype_IP4 s)
  else
    match cache_ s !! next_hop with
    | None => Ok (await_resolution inet pckt next_hop s)
    | Some cache_entry => Ok (linklayer_out pckt (mac cache_entry) Ethertype_IP4 s)
    end.

(** [Arp::resolve_waiting()].  The loop visits every key of the map once; the
    model visits them in the order of [map_to_list], and nothing below
    depends on that order. *)
Definition resolve_waiting (inet : Inet) (s : Arp) : Arp :=
  if decide (waiting_packets_ s = ∅) then
    set_resolve_timer Timer_stop s
  else
    let s1 := foldl (λ s' packet_it, arp_resolve inet packet_it.1 s') s
                (map_to_list (waiting_packets_ s)) in
    set_resolve_timer (Timer_start 1) s1.

(** [Arp::flush_expired()] *)
Definition flush_expired (inet : Inet) (s : Arp) : Arp :=
  let expired :=
    (filter (λ ent, Cache_entry_expired (time_since_boot inet) (flush_interval_ s) ent.2 = true)
       (map_to_list (cache_ s))).*1 in
  let s1 := foldl (λ s' ip, set_cache (delete ip) s') s expired in
  if negb (bool_decide (cache_ s1 = ∅)) then
    set_flush_timer (Timer_start (flush_interval_ s1)) s1
  else s1.

(** [Arp::receive(pckt)] *)
Definition receive (inet : Inet) (pckt : Packet) (s : Arp) : result Arp :=
  let hdr := pckt_layer_begin pckt in
  let s1 := cache inet (sipaddr hdr) (shwaddr hdr) s in
  s2 ← match waiting_packets_ s1 !! sipaddr hdr with
       | Some waiting =>
           s' ← transmit inet waiting (sipaddr hdr) s1;
           Ok (set_waiting_packets (delete (sipaddr hdr)) s')
       | None => Ok s1
       end;
  if (opcode hdr =? H_request)%Z then
    let s3 := set_requests_rx incr32 s2 in
    if (dipaddr hdr =? ip_addr inet)%Z then
      Ok (arp_respond hdr (ip_addr inet) s3)
    else
      match proxy_ s3 with
      | Some proxy =>
          if proxy (dipaddr hdr) then Ok (arp_respond hdr (dipaddr hdr) s3)
          else Ok s3
      | None => Ok s3
      end
  else if (opcode hdr =? H_reply)%Z then
    Ok (set_replies_rx incr32 s2)
  else
    Ok s2.

(** Modelled from the spec: the timer service (util/timer.hpp is not under
    src/).  A timer that is not running does not fire; one that fires is no
    longer running when its callback starts. *)
Definition resolve_timer_fires (inet : Inet) (s : Arp) : Arp :=
  if is_running (resolve_timer_ s) then
    resolve_waiting inet (set_resolve_timer Timer_stop s)
  else s.

Definition flush_timer_fires (inet : Inet) (s : Arp) : Arp :=
  if is_running (flush_timer_ s) then
    flush_expired inet (set_flush_timer Timer_stop s)
  else s.

(** Modelled from the spec: [Arp::set_proxy_policy] (arp.hpp is not under
    src/) installs or replaces the proxy predicate. *)
Definition set_proxy (p : Z → bool) (s : Arp) : Arp := set_proxy_ (Some p) s.

(** ** Runs *)

(** What the host can do with the module. *)
Inductive Op :=
| Receive (inet : Inet) (pckt : Packet)
| Transmit (inet : Inet) (pckt : Packet) (next_hop : Z)
| Resolve_timer (inet : Inet)
| Flush_timer (inet : Inet)
| Set_proxy (p : Z → bool).

Definition step (op : Op) (s : Arp) : result Arp :=
  match op with
  | Receive inet pckt => receive inet pckt s
  | Transmit inet pckt next_hop => transmit inet pckt next_hop s
  | Resolve_timer inet => Ok (resolve_timer_fires inet s)
  | Flush_timer inet => Ok (flush_timer_fires inet s)
  | Set_proxy p => Ok (set_proxy p s)
  end.

Fixpoint run (ops : list Op) (s : Arp) : result Arp :=
  match ops with
  | [] => Ok s
  | op :: ops' => s' ← step op s; run ops' s'
  end.

(** A state the module can be in: some run from a fresh module ends there. *)
Definition reachable (s : Arp) : Prop :=
  ∃ link_addr flush_interval ops, run ops (Arp_init link_addr flush_interval) = Ok s.

(** Induction along a chain. *)
Fixpoint Packet_chain_ind (P : Packet → Prop)
    (Hlast : ∀ sz l b, P (mk_Packet sz l b None))
    (Hnext : ∀ sz l b n, P n → P (mk_Packet sz l b (Some n)))
    (q : Packet) : P q :=
  match q with
  | mk_Packet sz l b c =>
      match c with
      | None => Hlast sz l b
      | Some n => Hnext sz l b n (Packet_chain_ind P Hlast Hnext n)
      end
  end.

(** The request that [arp_resolve] hands to the link. *)
Definition request_call (local_mac : Z) (inet : Inet) (next_hop : Z) : Link_call :=
  mk_Link_call
    (set_opcode H_request
       (set_dest_mac MAC_BROADCAST (PacketArp_init local_mac (ip_addr inet) next_hop)))
    MAC_BROADCAST Ethertype_ARP.

(** The reply that [arp_respond] hands to the link. *)
Definition reply_call (local_mac : Z) (hdr_in : header) (ack_ip : Z) : Link_call :=
  mk_Link_call
    (set_opcode H_reply
       (set_dest_mac (shwaddr hdr_in) (PacketArp_init local_mac ack_ip (sipaddr hdr_in))))
    (shwaddr hdr_in) Ethertype_ARP.

(** ** The invariant of the module *)

Record Inv (s : Arp) : Prop := mk_Inv {
  Inv_flush : is_running (flush_timer_ s) = true ↔ cache_ s ≠ ∅;
  Inv_resolve : waiting_packets_ s ≠ ∅ → is_running (resolve_timer_ s) = true;
  Inv_size : ∀ ip q, waiting_packets_ s !! ip = Some q → pckt_size q ≠ 0%Z;
  Inv_bcast : waiting_packets_ s !! ADDR_BCAST = None
}.

(** The drain of [receive]: the chain waiting for [ip], if any, goes to
    [transmit] and its entry is erased. *)
Definition drain (inet : Inet) (ip : Z) (s : Arp) : result Arp :=
  match waiting_packets_ s !! ip with
  | Some waiting =>
      s' ← transmit inet waiting ip s;
      Ok (set_waiting_packets (delete ip) s')
  | None => Ok s
  end.

(** The opcode switch of [receive]. *)
Definition dispatch (inet : Inet) (hdr : header) (s : Arp) : Arp :=
  if (opcode hdr =? H_request)%Z then
    let s3 := set_requests_rx incr32 s in
    if (dipaddr hdr =? ip_addr inet)%Z then arp_respond hdr (ip_addr inet) s3
    else
      match proxy_ s3 with
      | Some proxy =>
          if proxy (dipaddr hdr) then arp_respond hdr (dipaddr hdr) s3 else s3
      | None => s3
      end
  else if (opcode hdr =? H_reply)%Z then set_replies_rx incr32 s
  else s.


(** The calls the opcode switch makes on the link. *)
Definition dispatch_calls (inet : Inet) (hdr : header) (s : Arp) : list Link_call :=
  if (opcode hdr =? H_request)%Z then
    if (dipaddr hdr =? ip_addr inet)%Z then [reply_call (mac_ s) hdr (ip_addr inet)]
    else
      match proxy_ s with
      | Some proxy =>
          if proxy (dipaddr hdr) then [reply_call (mac_ s) hdr (dipaddr hdr)] else []
      | None => []
      end
  else [].

(** ** Observations on states and on the record of link calls *)

(** The buffers waiting for [ip], oldest first. *)
Definition pending_buffers (s : Arp) (ip : Z) : list Packet :=
  match waiting_packets_ s !! ip with
  | Some waiting => buffers waiting
  | None => []
  end.

(** A link call hands every buffer of the chain to the link, in chain order,
    with the call's destination and Ethertype. *)
Definition delivered (c : Link_call) : list (Packet * Z * Ethertype) :=
  (λ b, (b, call_dest c, call_type c)) <$> buffers (call_pckt c).

Fixpoint count_if {A : Type} (f : A → bool) (l : list A) : nat :=
  match l with
  | [] => 0
  | x :: l' => (if f x then 1 else 0) + count_if f l'
  end.

(** An ARP request asking for [ip]. *)
Definition is_request_for (ip : Z) (c : Link_call) : bool :=
  bool_decide (call_type c = Ethertype_ARP)
  && (opcode (pckt_layer_begin (call_pckt c)) =? H_request)%Z
  && (dipaddr (pckt_layer_begin (call_pckt c)) =? ip)%Z.

Definition is_ip4_call (c : Link_call) : bool :=
  bool_decide (call_type c = Ethertype_IP4).

(** A link call that is an ARP reply sent to [dest] in the name of
    [sender_ip], [sender_mac]. *)
Definition is_reply_from (sender_ip sender_mac dest : Z) (c : Link_call) : Prop :=
  call_type c = Ethertype_ARP ∧ call_dest c = dest ∧
  opcode (pckt_layer_begin (call_pckt c)) = H_reply ∧
  sipaddr (pckt_layer_begin (call_pckt c)) = sender_ip ∧
  shwaddr (pckt_layer_begin (call_pckt c)) = sender_mac.

(** ** Runs in which a peer stays silent *)





(** [cache(ip, mac)] once per element of [inets], in order. *)
Definition cache_repeatedly (inets : list Inet) (ip m : Z) (s : Arp) : Arp :=
  foldl (λ s' inet, cache inet ip m s') s inets.

(** ** Concrete hosts, frames and packets

    The addresses of the spec's scenarios: the local host is 10.0.0.1 with
    MAC 02:00:00:00:00:01, the peer 10.0.0.3 has MAC 02:00:00:00:00:03. *)
Definition ip_10_0_0_1 : Z := 167772161.
Definition ip_10_0_0_3 : Z := 167772163.
Definition ip_10_0_0_9 : Z := 167772169.
Definition mac_01 : Z := 2199023255553.
Definition mac_03 : Z := 2199023255555.

Definition inet_at (now : Z) : Inet := mk_Inet ip_10_0_0_1 now.
Definition fresh_arp : Arp := Arp_init mac_01 300.

Definition no_header : header := mk_header 0 0 0 0 0 0 0 0.
Definition P1 : Packet := mk_Packet 60 no_header [1%Z] None.
Definition P2 : Packet := mk_Packet 61 no_header [2%Z] None.

(** An ARP frame with the given sender, opcode, target and buffer size. *)
Definition frame_from (sender_mac sender_ip op target_ip sz : Z) : Packet :=
  mk_Packet sz
    (mk_header H_htype_eth H_ptype_ip4 H_hlen_plen op sender_mac sender_ip 0 target_ip)
    [] None.

Definition frame_from_3 (op target_ip sz : Z) : Packet :=
  frame_from mac_03 ip_10_0_0_3 op target_ip sz.

(** The module after [transmit(P1, 10.0.0.3)] missed the cache at time 50. *)
Definition pending_arp : Arp := await_resolution (inet_at 50) P1 ip_10_0_0_3 fresh_arp.

(** A request whose sender fields are the local host's own address, and one
    whose sender IPv4 is the broadcast address. *)
Definition frame_from_self : Packet :=
  frame_from mac_03 ip_10_0_0_1 H_request ip_10_0_0_9 28.
Definition frame_from_bcast : Packet :=
  frame_from mac_03 ADDR_BCAST H_request ip_10_0_0_9 28.

(** Whether packets are waiting for [ip]. *)
Definition is_pending (s : Arp) (ip : Z) : bool :=
  bool_decide (is_Some (waiting_packets_ s !! ip)).

(** The buffers enqueued for [ip] in a run and not yet drained, oldest
    first.  A packet is enqueued when [transmit] passes it to
    [await_resolution], that is when its next hop is not the broadcast
    address and has no cache entry; a frame from [ip] takes away all that is
    enqueued for [ip]; the timers take nothing away. *)
Fixpoint enqueued (ip : Z) (ops : list Op) (s : Arp) (queue : list Packet) : list Packet :=
  match ops with
  | [] => queue
  | op :: ops' =>
      match step op s with
      | Ok s' =>
          enqueued ip ops' s'
            match op with
            | Transmit _ pckt next_hop =>
                if decide (next_hop = ip ∧ next_hop ≠ ADDR_BCAST ∧ cache_ s !! next_hop = None)
                then queue ++ buffers pckt
                else queue
            | Receive _ pckt =>
                if decide (sipaddr (pckt_layer_begin pckt) = ip) then [] else queue
            | _ => queue
            end
      | Contract_violation => queue
      end
  end.

(** The state a run from the fresh module of the scenarios ends in. *)
Definition state_after (ops : list Op) : Arp :=
  match run ops fresh_arp with
  | Ok s => s
  | Contract_violation => fresh_arp
  end.

(** Two packets for 10.0.0.3 miss the cache, then the resolve timer fires. *)
Definition two_packets_queued : list Op :=
  [Transmit (inet_at 50) P1 ip_10_0_0_3; Transmit (inet_at 51) P2 ip_10_0_0_3;
   Resolve_timer (inet_at 52)].

(** A packet for 10.0.0.3 misses the cache, then 10.0.0.3 replies. *)
Definition miss_then_reply : list Op :=
  [Transmit (inet_at 50) P1 ip_10_0_0_3;
   Receive (inet_at 100) (frame_from_3 H_reply ip_10_0_0_1 28)].

(** ** Further observations: statistics, kinds of link calls, history *)

Definition is_arp_request (c : Link_call) : bool :=
  bool_decide (call_type c = Ethertype_ARP)
  && (opcode (pckt_layer_begin (call_pckt c)) =? H_request)%Z.

Definition is_arp_reply (c : Link_call) : bool :=
  bool_decide (call_type c = Ethertype_ARP)
  && (opcode (pckt_layer_begin (call_pckt c)) =? H_reply)%Z.

(** Whether the opcode switch of [receive] answers the frame: it is a request
    and its target is the local address or is accepted by the proxy. *)
Definition responds (inet : Inet) (hdr : header) (s : Arp) : bool :=
  (opcode hdr =? H_request)%Z
  && ((dipaddr hdr =? ip_addr inet)%Z
      || match proxy_ s with Some proxy => proxy (dipaddr hdr) | None => false end).

(** The three kinds of call the module makes on the link: a packet of
    non-zero size as IPv4; a request of its own, broadcast; a reply of its
    own, sent to the MAC it names as target. *)
Definition well_formed_call (local_mac : Z) (c : Link_call) : Prop :=
  match call_type c with
  | Ethertype_IP4 => pckt_size (call_pckt c) ≠ 0%Z
  | Ethertype_ARP =>
      pckt_size (call_pckt c) = 28%Z ∧
      pckt_chain_ (call_pckt c) = None ∧
      shwaddr (pckt_layer_begin (call_pckt c)) = local_mac ∧
      ((opcode (pckt_layer_begin (call_pckt c)) = H_request ∧
        call_dest c = MAC_BROADCAST) ∨
       (opcode (pckt_layer_begin (call_pckt c)) = H_reply ∧
        call_dest c = dhwaddr (pckt_layer_begin (call_pckt c))))
  end.

(** A frame with the given opcode is received. *)
Definition is_received (op : Z) (o : Op) : bool :=
  match o with
  | Receive _ pckt => (opcode (pckt_layer_begin pckt) =? op)%Z
  | _ => false
  end.

(** The binding and arrival time of the last frame from [ip] in a run, or
    [acc] when the run has no frame from [ip]. *)
Fixpoint last_frame (ip : Z) (ops : list Op) (acc : option Cache_entry) : option Cache_entry :=
  match ops with
  | [] => acc
  | Receive inet pckt :: ops' =>
      if decide (sipaddr (pckt_layer_begin pckt) = ip) then
        last_frame ip ops'
          (Some (mk_Cache_entry (shwaddr (pckt_layer_begin pckt)) (time_since_boot inet)))
      else last_frame ip ops' acc
  | _ :: ops' => last_frame ip ops' acc
  end.

(** Every packet a run offers to [transmit] has a size other than zero. *)
Definition meets_precondition (o : Op) : Prop :=
  match o with
  | Transmit _ pckt _ => pckt_size pckt ≠ 0%Z
  | _ => True
  end.

(** What the statistics, the record of link calls, the cache and the waiting
    packets have to do with each other. *)
Record Bookkeeping (s : Arp) : Prop := mk_Bookkeeping {
  Book_requests_tx :
    requests_tx_ s = (Z.of_nat (count_if is_arp_request (linklayer_out_ s)) mod 2 ^ 32)%Z;
  Book_replies_tx :
    replies_tx_ s = (Z.of_nat (count_if is_arp_reply (linklayer_out_ s)) mod 2 ^ 32)%Z;
  Book_calls : Forall (well_formed_call (mac_ s)) (linklayer_out_ s);
  Book_disjoint : ∀ ip, is_Some (cache_ s !! ip) → waiting_packets_ s !! ip = None;
  Book_requested :
    ∀ ip, is_Some (waiting_packets_ s !! ip) →
          Exists (λ c, is_request_for ip c = true) (linklayer_out_ s)
}.

(** A firing of the resolve timer. *)
Definition is_resolve_timer (o : Op) : bool :=
  match o with
  | Resolve_timer _ => true
  | _ => false
  end.

(** A frame whose sender IPv4 is [ip] is received. *)
Definition is_frame_from (ip : Z) (o : Op) : bool :=
  match o with
  | Receive _ pckt => bool_decide (sipaddr (pckt_layer_begin pckt) = ip)
  | _ => false
  end.
(** ** Chains *)

Lemma chain_size q p : pckt_size (chain q p) = pckt_size q.
Proof. by destruct q. Qed.

Lemma buffers_chain q p : buffers (chain q p) = buffers q ++ buffers p.
Proof.
  induction q as [sz l b|sz l b n IH] using Packet_chain_ind; simpl.
  - done.
  - by rewrite IH.
Qed.

(** ** What each function leaves alone *)

Lemma cache_frame inet ip m s :
  let s' := cache inet ip m s in
  waiting_packets_ s' = waiting_packets_ s ∧ linklayer_out_ s' = linklayer_out_ s ∧
  resolve_timer_ s' = resolve_timer_ s ∧ requests_rx_ s' = requests_rx_ s ∧
  requests_tx_ s' = requests_tx_ s ∧ replies_rx_ s' = replies_rx_ s ∧
  replies_tx_ s' = replies_tx_ s ∧ mac_ s' = mac_ s ∧ proxy_ s' = proxy_ s ∧
  flush_interval_ s' = flush_interval_ s.
Proof.
  unfold cache. destruct (cache_ s !! ip) as [e|]; simpl.
  - by destruct (negb (mac e =? m)%Z).
  - by destruct (negb (is_running (flush_timer_ s))).
Qed.

Lemma cache_lookup inet ip m s :
  ∃ e, cache_ (cache inet ip m s) !! ip = Some e ∧ mac e = m ∧
       timestamp e = time_since_boot inet.
Proof.
  unfold cache. destruct (cache_ s !! ip) as [e|] eqn:He; simpl.
  - destruct (mac e =? m)%Z eqn:Hm; simpl.
    + eexists. rewrite lookup_insert_eq. split; [done|]. simpl. split; [lia|done].
    + eexists. by rewrite lookup_insert_eq.
  - destruct (negb (is_running (flush_timer_ s))); simpl;
      eexists; by rewrite lookup_insert_eq.
Qed.

Lemma cache_lookup_ne inet ip m s ip' :
  ip' ≠ ip → cache_ (cache inet ip m s) !! ip' = cache_ s !! ip'.
Proof.
  intros Hne. unfold cache. destruct (cache_ s !! ip) as [e|] eqn:He; simpl.
  - destruct (negb (mac e =? m)%Z); simpl.
    + by rewrite lookup_insert_ne, lookup_delete_ne.
    + by rewrite lookup_insert_ne.
  - destruct (negb (is_running (flush_timer_ s))); simpl; by rewrite lookup_insert_ne.
Qed.

Lemma cache_nonempty inet ip m s : cache_ (cache inet ip m s) ≠ ∅.
Proof.
  destruct (cache_lookup inet ip m s) as (e & He & _).
  intros Hemp. rewrite Hemp, lookup_empty in He. done.
Qed.

Lemma cache_flush_timer inet ip m s :
  (cache_ s ≠ ∅ → is_running (flush_timer_ s) = true) →
  is_running (flush_timer_ (cache inet ip m s)) = true.
Proof.
  intros Hinv. unfold cache. destruct (cache_ s !! ip) as [e|] eqn:He; simpl.
  - assert (is_running (flush_timer_ s) = true) as Hrun.
    { apply Hinv. intros Hemp. by rewrite Hemp, lookup_empty in He. }
    by destruct (negb (mac e =? m)%Z).
  - by destruct (is_running (flush_timer_ s)) eqn:Hrun.
Qed.

Lemma resolve_loop inet (l : list (Z * Packet)) s :
  let s' := foldl (λ s' packet_it, arp_resolve inet packet_it.1 s') s l in
  cache_ s' = cache_ s ∧ waiting_packets_ s' = waiting_packets_ s ∧
  flush_timer_ s' = flush_timer_ s ∧ resolve_timer_ s' = resolve_timer_ s ∧
  mac_ s' = mac_ s ∧ proxy_ s' = proxy_ s ∧ flush_interval_ s' = flush_interval_ s ∧
  requests_rx_ s' = requests_rx_ s ∧ replies_rx_ s' = replies_rx_ s ∧
  replies_tx_ s' = replies_tx_ s ∧
  linklayer_out_ s' = linklayer_out_ s ++ ((λ it, request_call (mac_ s) inet it.1) <$> l).
Proof.
  revert s. induction l as [|it l IH]; intros s; simpl.
  - by rewrite app_nil_r.
  - specialize (IH (arp_resolve inet it.1 s)). simpl in IH.
    destruct IH as (-> & -> & -> & -> & -> & -> & -> & -> & -> & -> & ->).
    simpl. by rewrite <- app_assoc.
Qed.

Lemma flush_loop (l : list Z) s :
  let s' := foldl (λ s' ip, set_cache (delete ip) s') s l in
  waiting_packets_ s' = waiting_packets_ s ∧ flush_timer_ s' = flush_timer_ s ∧
  resolve_timer_ s' = resolve_timer_ s ∧ linklayer_out_ s' = linklayer_out_ s ∧
  flush_interval_ s' = flush_interval_ s ∧
  (∀ ip, cache_ s !! ip = None → cache_ s' !! ip = None).
Proof.
  revert s. induction l as [|i l IH]; intros s; simpl.
  - done.
  - specialize (IH (set_cache (delete i) s)). simpl in IH.
    destruct IH as (-> & -> & -> & -> & -> & IH). repeat split; try done.
    intros ip Hip. apply IH. destruct (decide (i = ip)) as [->|Hne].
    + apply lookup_delete_eq.
    + by rewrite lookup_delete_ne.
Qed.

Lemma flush_expired_frame inet s :
  let s' := flush_expired inet s in
  waiting_packets_ s' = waiting_packets_ s ∧ resolve_timer_ s' = resolve_timer_ s ∧
  linklayer_out_ s' = linklayer_out_ s ∧
  (∀ ip, cache_ s !! ip = None → cache_ s' !! ip = None).
Proof.
  unfold flush_expired.
  match goal with |- context [foldl ?f s ?l] => 
    destruct (flush_loop l s) as (Hw & Hf & Hr & Hl & Hi & Hc) end.
  simpl in *.
  case_match; simpl; rewrite ?Hw, ?Hr, ?Hl; repeat split; try done.
Qed.

Lemma flush_expired_timer inet s :
  flush_timer_ s = Timer_stopped →
  is_running (flush_timer_ (flush_expired inet s)) = true ↔
  cache_ (flush_expired inet s) ≠ ∅.
Proof.
  intros Hstopped. unfold flush_expired.
  match goal with |- context [foldl ?f s ?l] => 
    destruct (flush_loop l s) as (Hw & Hf & Hr & Hl & Hi & Hc) end.
  simpl in *.
  case_bool_decide as Hemp; simpl.
  - rewrite Hf, Hstopped. simpl. split; [done|]. intros H. by destruct H.
  - done.
Qed.

Lemma Inv_init link_addr flush_interval : Inv (Arp_init link_addr flush_interval).
Proof.
  split; simpl.
  - split; [done|]. intros H. by destruct H.
  - intros H. by destruct H.
  - intros ip q. by rewrite lookup_empty.
  - apply lookup_empty.
Qed.

Lemma Inv_await_resolution inet pckt next_hop s :
  Inv s → pckt_size pckt ≠ 0%Z → next_hop ≠ ADDR_BCAST →
  Inv (await_resolution inet pckt next_hop s).
Proof.
  intros [Hf Hr Hs Hb] Hsz Hne. unfold await_resolution.
  destruct (waiting_packets_ s !! next_hop) as [queue|] eqn:Hq; split; simpl; try done.
  - intros _. apply Hr. intros Hemp. by rewrite Hemp, lookup_empty in Hq.
  - intros ip q. destruct (decide (next_hop = ip)) as [->|Hip].
    + rewrite lookup_insert_eq. intros [= <-]. rewrite chain_size. eauto.
    + rewrite lookup_insert_ne by done. apply Hs.
  - by rewrite lookup_insert_ne.
  - intros ip q. destruct (decide (next_hop = ip)) as [->|Hip].
    + rewrite lookup_insert_eq. by intros [= <-].
    + rewrite lookup_insert_ne by done. apply Hs.
  - by rewrite lookup_insert_ne.
Qed.

Lemma Inv_transmit inet pckt next_hop s s' :
  Inv s → transmit inet pckt next_hop s = Ok s' → Inv s'.
Proof.
  intros HI. unfold transmit.
  destruct (pckt_size pckt =? 0)%Z eqn:Hsz; [done|].
  destruct (next_hop =? ADDR_BCAST)%Z eqn:Hb.
  { intros [= <-]. by destruct HI. }
  destruct (cache_ s !! next_hop) as [e|] eqn:He; intros [= <-].
  - by destruct HI.
  - apply Inv_await_resolution; [done|lia|lia].
Qed.

Lemma Inv_cache inet ip m s : Inv s → Inv (cache inet ip m s).
Proof.
  intros [Hf Hr Hs Hb].
  destruct (cache_frame inet ip m s) as (Hw & _ & Ht & _).
  split; rewrite ?Hw, ?Ht; try done.
  split; intros _.
  - apply cache_nonempty.
  - apply cache_flush_timer. apply Hf.
Qed.

Lemma Inv_delete_waiting ip s : Inv s → Inv (set_waiting_packets (delete ip) s).
Proof.
  intros [Hf Hr Hs Hb]. split; simpl; try done.
  - intros Hne. apply Hr. intros Hemp. apply Hne. rewrite Hemp. apply delete_empty.
  - intros ip' q Hq. apply lookup_delete_Some in Hq as [_ Hq]. eauto.
  - destruct (decide (ip = ADDR_BCAST)) as [->|Hne].
    + apply lookup_delete_eq.
    + by rewrite lookup_delete_ne.
Qed.

Lemma receive_unfold inet pckt s :
  receive inet pckt s =
  s2 ← drain inet (sipaddr (pckt_layer_begin pckt))
         (cache inet (sipaddr (pckt_layer_begin pckt)) (shwaddr (pckt_layer_begin pckt)) s);
  Ok (dispatch inet (pckt_layer_begin pckt) s2).
Proof.
  unfold receive, drain, dispatch. simpl.
  destruct (waiting_packets_ _ !! _) as [w|]; simpl.
  - destruct (transmit _ _ _ _); simpl; [|done].
    repeat case_match; done.
  - repeat case_match; done.
Qed.

Lemma dispatch_frame inet hdr s :
  let s' := dispatch inet hdr s in
  cache_ s' = cache_ s ∧ waiting_packets_ s' = waiting_packets_ s ∧
  flush_timer_ s' = flush_timer_ s ∧ resolve_timer_ s' = resolve_timer_ s ∧
  mac_ s' = mac_ s ∧ requests_tx_ s' = requests_tx_ s.
Proof. unfold dispatch. repeat case_match; done. Qed.

Lemma Inv_dispatch inet hdr s : Inv s → Inv (dispatch inet hdr s).
Proof.
  intros [Hf Hr Hs Hb].
  destruct (dispatch_frame inet hdr s) as (Hc & Hw & Hft & Hrt & _).
  split; rewrite ?Hc, ?Hw, ?Hft, ?Hrt; done.
Qed.

(** After a learn of [ip] the drain always returns: the chain, if there is
    one, goes out whole, to the learned MAC, as IPv4. *)
Lemma drain_after_cache inet ip e s :
  Inv s → cache_ s !! ip = Some e →
  drain inet ip s =
  Ok (match waiting_packets_ s !! ip with
      | Some waiting =>
          set_waiting_packets (delete ip) (linklayer_out waiting (mac e) Ethertype_IP4 s)
      | None => s
      end).
Proof.
  intros HI He. unfold drain.
  destruct (waiting_packets_ s !! ip) as [w|] eqn:Hw; [|done].
  unfold transmit.
  destruct (pckt_size w =? 0)%Z eqn:Hsz.
  { exfalso. eapply (Inv_size s HI); [done|lia]. }
  destruct (ip =? ADDR_BCAST)%Z eqn:Hb.
  { exfalso. assert (ip = ADDR_BCAST) as -> by lia.
    rewrite (Inv_bcast s HI) in Hw. done. }
  by rewrite He.
Qed.

Lemma Inv_receive inet pckt s s' : Inv s → receive inet pckt s = Ok s' → Inv s'.
Proof.
  intros HI. rewrite receive_unfold.
  set (hdr := pckt_layer_begin pckt).
  pose proof (Inv_cache inet (sipaddr hdr) (shwaddr hdr) s HI) as HI1.
  destruct (cache_lookup inet (sipaddr hdr) (shwaddr hdr) s) as (e & He & _).
  rewrite (drain_after_cache _ _ e) by done. simpl.
  intros [= <-]. apply Inv_dispatch.
  destruct (waiting_packets_ _ !! _); [|done].
  apply Inv_delete_waiting. by destruct HI1.
Qed.

Lemma resolve_waiting_frame inet s :
  let s' := resolve_waiting inet s in
  cache_ s' = cache_ s ∧ waiting_packets_ s' = waiting_packets_ s ∧
  flush_timer_ s' = flush_timer_ s ∧ mac_ s' = mac_ s ∧ proxy_ s' = proxy_ s ∧
  (is_running (resolve_timer_ s') = true ↔ waiting_packets_ s ≠ ∅) ∧
  linklayer_out_ s' = linklayer_out_ s ++
    if decide (waiting_packets_ s = ∅) then []
    else (λ it, request_call (mac_ s) inet it.1) <$> map_to_list (waiting_packets_ s).
Proof.
  unfold resolve_waiting. destruct (decide (waiting_packets_ s = ∅)) as [Hemp|Hne]; simpl.
  - rewrite app_nil_r. repeat split; done.
  - destruct (resolve_loop inet (map_to_list (waiting_packets_ s)) s)
      as (-> & -> & -> & _ & -> & -> & _ & _ & _ & _ & ->).
    repeat split; done.
Qed.

Lemma Inv_resolve_timer_fires inet s : Inv s → Inv (resolve_timer_fires inet s).
Proof.
  intros HI. unfold resolve_timer_fires.
  destruct (is_running (resolve_timer_ s)); [|done].
  destruct (resolve_waiting_frame inet (set_resolve_timer Timer_stop s))
    as (Hc & Hw & Hft & _ & _ & Hrt & _).
  destruct HI as [Hf Hr Hs Hb].
  split; rewrite ?Hc, ?Hw, ?Hft; simpl; try done.
  apply Hrt.
Qed.

Lemma Inv_flush_timer_fires inet s : Inv s → Inv (flush_timer_fires inet s).
Proof.
  intros HI. unfold flush_timer_fires.
  destruct (is_running (flush_timer_ s)); [|done].
  destruct (flush_expired_frame inet (set_flush_timer Timer_stop s)) as (Hw & Hrt & _).
  destruct HI as [Hf Hr Hs Hb].
  split; rewrite ?Hw, ?Hrt; simpl; try done.
  by apply flush_expired_timer.
Qed.

Lemma Inv_step op s s' : Inv s → step op s = Ok s' → Inv s'.
Proof.
  intros HI. destruct op; simpl.
  - by apply Inv_receive.
  - by apply Inv_transmit.
  - intros [= <-]. by apply Inv_resolve_timer_fires.
  - intros [= <-]. by apply Inv_flush_timer_fires.
  - intros [= <-]. by destruct HI.
Qed.

Lemma Inv_run ops s s' : Inv s → run ops s = Ok s' → Inv s'.
Proof.
  revert s. induction ops as [|op ops IH]; intros s HI; simpl.
  - by intros [= <-].
  - destruct (step op s) as [s1|] eqn:Hstep; simpl; [|done].
    apply IH. by eapply Inv_step.
Qed.

Lemma Inv_reachable s : reachable s → Inv s.
Proof. intros (m & fi & ops & Hrun). eapply Inv_run; [apply Inv_init|done]. Qed.

(** ** [receive], whole *)

Lemma dispatch_out inet hdr s :
  linklayer_out_ (dispatch inet hdr s) = linklayer_out_ s ++ dispatch_calls inet hdr s.
Proof.
  unfold dispatch, dispatch_calls. simpl.
  repeat case_match; simpl; by rewrite ?app_nil_r.
Qed.

(** In a state that satisfies the invariant [receive] returns, and the state
    it returns is: learn, then drain, then dispatch. *)
Lemma receive_returns inet pckt s :
  Inv s →
  let hdr := pckt_layer_begin pckt in
  let s1 := cache inet (sipaddr hdr) (shwaddr hdr) s in
  receive inet pckt s =
  Ok (dispatch inet hdr
        match waiting_packets_ s !! sipaddr hdr with
        | Some waiting =>
            set_waiting_packets (delete (sipaddr hdr))
              (linklayer_out waiting (shwaddr hdr) Ethertype_IP4 s1)
        | None => s1
        end).
Proof.
  intros HI hdr s1. rewrite receive_unfold. fold hdr. fold s1.
  destruct (cache_lookup inet (sipaddr hdr) (shwaddr hdr) s) as (e & He & Hm & _).
  fold s1 in He.
  rewrite (drain_after_cache inet _ e s1) by (by try apply Inv_cache).
  destruct (cache_frame inet (sipaddr hdr) (shwaddr hdr) s) as (Hw & _).
  fold s1 in Hw. rewrite Hw, Hm. done.
Qed.

(** The state between the drain and the opcode switch of [receive]. *)
Lemma drained_frame (w : option Packet) ip m s1 :
  let s2 := match w with
            | Some waiting =>
                set_waiting_packets (delete ip) (linklayer_out waiting m Ethertype_IP4 s1)
            | None => s1
            end in
  cache_ s2 = cache_ s1 ∧ requests_rx_ s2 = requests_rx_ s1 ∧
  requests_tx_ s2 = requests_tx_ s1 ∧ replies_rx_ s2 = replies_rx_ s1 ∧
  replies_tx_ s2 = replies_tx_ s1 ∧ mac_ s2 = mac_ s1 ∧ proxy_ s2 = proxy_ s1 ∧
  linklayer_out_ s2 =
    linklayer_out_ s1 ++
      match w with Some waiting => [mk_Link_call waiting m Ethertype_IP4] | None => [] end.
Proof. destruct w; simpl; by rewrite ?app_nil_r. Qed.

(** What [receive] leaves in the cache and in the queue for the sender. *)
Lemma receive_sender_known inet pckt s :
  Inv s →
  ∃ s' e,
    receive inet pckt s = Ok s' ∧
    cache_ s' !! sipaddr (pckt_layer_begin pckt) = Some e ∧
    mac e = shwaddr (pckt_layer_begin pckt) ∧
    waiting_packets_ s' !! sipaddr (pckt_layer_begin pckt) = None.
Proof.
  intros HI. rewrite receive_returns by done.
  set (hdr := pckt_layer_begin pckt).
  set (s1 := cache inet (sipaddr hdr) (shwaddr hdr) s).
  destruct (cache_lookup inet (sipaddr hdr) (shwaddr hdr) s) as (e & He & Hm & _).
  destruct (cache_frame inet (sipaddr hdr) (shwaddr hdr) s) as (Hw & _).
  fold s1 in He, Hw.
  eexists _, e. split; [done|].
  match goal with |- context [dispatch inet hdr ?s2] =>
    destruct (dispatch_frame inet hdr s2) as (Hc & Hq & _) end.
  simpl in Hc, Hq. rewrite Hc, Hq.
  destruct (waiting_packets_ s !! sipaddr hdr) as [w|] eqn:Hwait; simpl.
  - split; [done|]. split; [done|]. apply lookup_delete_eq.
  - split; [done|]. split; [done|]. by rewrite Hw.
Qed.

Lemma Inv_pending_arp : Inv pending_arp.
Proof. apply Inv_await_resolution; [apply Inv_init|done|done]. Qed.

(** ** Claims *)

(** C1: for every inbound frame, of whatever opcode, [receive] learns the
    sender binding first, so that when it returns the cache maps the frame's
    sender IPv4 to the frame's sender MAC; nothing after the learn touches
    the cache.  The state is any that satisfies [Inv], as every reachable
    state does ([Inv_reachable]). *)
Theorem receive_learns_sender inet pckt s :
  Inv s →
  ∃ s' e,
    receive inet pckt s = Ok s' ∧
    cache_ s' !! sipaddr (pckt_layer_begin pckt) = Some e ∧
    mac e = shwaddr (pckt_layer_begin pckt) ∧
    cache_ s' =
      cache_ (cache inet (sipaddr (pckt_layer_begin pckt))
                (shwaddr (pckt_layer_begin pckt)) s).
Proof.
  intros HI. rewrite receive_returns by done.
  set (hdr := pckt_layer_begin pckt).
  set (s1 := cache inet (sipaddr hdr) (shwaddr hdr) s).
  destruct (cache_lookup inet (sipaddr hdr) (shwaddr hdr) s) as (e & He & Hm & _).
  fold s1 in He.
  destruct (drained_frame (waiting_packets_ s !! sipaddr hdr) (sipaddr hdr) (shwaddr hdr) s1)
    as (Hc & _).
  eexists _, e. split; [done|].
  destruct (dispatch_frame inet hdr
    match waiting_packets_ s !! sipaddr hdr with
    | Some waiting =>
        set_waiting_packets (delete (sipaddr hdr))
          (linklayer_out waiting (shwaddr hdr) Ethertype_IP4 s1)
    | None => s1
    end) as (Hd & _).
  simpl in Hd. rewrite Hd, Hc. done.
Qed.

Lemma receive_learns_sender_witness :
  Inv fresh_arp ∧
  ∃ s' e,
    receive (inet_at 100) (frame_from_3 H_reply ip_10_0_0_1 28) fresh_arp = Ok s' ∧
    cache_ s' !! ip_10_0_0_3 = Some e ∧ mac e = mac_03 ∧
    cache_ s' = cache_ (cache (inet_at 100) ip_10_0_0_3 mac_03 fresh_arp).
Proof.
  split; [apply Inv_init|].
  apply (receive_learns_sender (inet_at 100) (frame_from_3 H_reply ip_10_0_0_1 28) fresh_arp).
  apply Inv_init.
Defined.

(** C10: a frame whose opcode is neither request nor reply is learned from
    and drained for like any other, and then nothing more happens: the four
    counters keep their values and the only call on the link, if any, is the
    chain that waited for the sender, sent as IPv4 to the sender's MAC. *)
Theorem receive_unknown_opcode inet pckt s :
  Inv s →
  opcode (pckt_layer_begin pckt) ≠ H_request →
  opcode (pckt_layer_begin pckt) ≠ H_reply →
  ∃ s' e,
    receive inet pckt s = Ok s' ∧
    cache_ s' !! sipaddr (pckt_layer_begin pckt) = Some e ∧
    mac e = shwaddr (pckt_layer_begin pckt) ∧
    waiting_packets_ s' = delete (sipaddr (pckt_layer_begin pckt)) (waiting_packets_ s) ∧
    linklayer_out_ s' =
      linklayer_out_ s ++
        match waiting_packets_ s !! sipaddr (pckt_layer_begin pckt) with
        | Some waiting =>
            [mk_Link_call waiting (shwaddr (pckt_layer_begin pckt)) Ethertype_IP4]
        | None => []
        end ∧
    requests_rx_ s' = requests_rx_ s ∧ replies_rx_ s' = replies_rx_ s ∧
    replies_tx_ s' = replies_tx_ s ∧ requests_tx_ s' = requests_tx_ s.
Proof.
  intros HI Hreq Hrep. rewrite receive_returns by done.
  set (hdr := pckt_layer_begin pckt) in *.
  set (s1 := cache inet (sipaddr hdr) (shwaddr hdr) s).
  destruct (cache_lookup inet (sipaddr hdr) (shwaddr hdr) s) as (e & He & Hm & _).
  destruct (cache_frame inet (sipaddr hdr) (shwaddr hdr) s)
    as (Hw & Hl & _ & Hrq & Htq & Hrp & Htp & _).
  fold s1 in He, Hw, Hl, Hrq, Htq, Hrp, Htp.
  eexists _, e. split; [done|].
  unfold dispatch.
  rewrite (proj2 (Z.eqb_neq _ _) Hreq), (proj2 (Z.eqb_neq _ _) Hrep).
  destruct (waiting_packets_ s !! sipaddr hdr) as [w|] eqn:Hq; simpl;
    rewrite ?Hw, ?Hl, ?Hrq, ?Htq, ?Hrp, ?Htp, ?app_nil_r; repeat split; try done.
  symmetry. by apply delete_id.
Qed.

Lemma receive_unknown_opcode_witness :
  Inv pending_arp ∧ 7%Z ≠ H_request ∧ 7%Z ≠ H_reply ∧
  ∃ s' e,
    receive (inet_at 100) (frame_from_3 7 ip_10_0_0_1 28) pending_arp = Ok s' ∧
    cache_ s' !! ip_10_0_0_3 = Some e ∧ mac e = mac_03 ∧
    waiting_packets_ s' = delete ip_10_0_0_3 (waiting_packets_ pending_arp) ∧
    linklayer_out_ s' =
      linklayer_out_ pending_arp ++ [mk_Link_call P1 mac_03 Ethertype_IP4] ∧
    requests_rx_ s' = requests_rx_ pending_arp ∧ replies_rx_ s' = replies_rx_ pending_arp ∧
    replies_tx_ s' = replies_tx_ pending_arp ∧ requests_tx_ s' = requests_tx_ pending_arp.
Proof.
  split; [apply Inv_pending_arp|]. split; [done|]. split; [done|].
  apply (receive_unknown_opcode (inet_at 100) (frame_from_3 7 ip_10_0_0_1 28) pending_arp);
    [apply Inv_pending_arp|done|done].
Defined.

(** C4, as the code has it: a request increments [requests_rx]; when its
    target is the local IPv4, exactly one ARP reply goes out, in the name of
    the local IPv4 and the local MAC, to the requester's MAC, and
    [replies_tx] is incremented; otherwise, when a proxy predicate is
    installed and accepts the target, the same reply goes out in the name of
    the target IPv4; otherwise no ARP frame goes out and [replies_tx] keeps
    its value.  In all three cases the chain that waited for the requester,
    if there is one, has gone out as IPv4 before. *)
Theorem receive_request inet pckt s :
  Inv s →
  opcode (pckt_layer_begin pckt) = H_request →
  ∃ s',
    receive inet pckt s = Ok s' ∧
    requests_rx_ s' = incr32 (requests_rx_ s) ∧
    let hdr := pckt_layer_begin pckt in
    let drained :=
      match waiting_packets_ s !! sipaddr hdr with
      | Some waiting => [mk_Link_call waiting (shwaddr hdr) Ethertype_IP4]
      | None => []
      end in
    if (dipaddr hdr =? ip_addr inet)%Z then
      ∃ reply,
        linklayer_out_ s' = linklayer_out_ s ++ drained ++ [reply] ∧
        is_reply_from (ip_addr inet) (mac_ s) (shwaddr hdr) reply ∧
        replies_tx_ s' = incr32 (replies_tx_ s)
    else if match proxy_ s with Some proxy => proxy (dipaddr hdr) | None => false end then
      ∃ reply,
        linklayer_out_ s' = linklayer_out_ s ++ drained ++ [reply] ∧
        is_reply_from (dipaddr hdr) (mac_ s) (shwaddr hdr) reply ∧
        replies_tx_ s' = incr32 (replies_tx_ s)
    else
      linklayer_out_ s' = linklayer_out_ s ++ drained ∧
      replies_tx_ s' = replies_tx_ s.
Proof.
  intros HI Hreq. rewrite receive_returns by done.
  set (hdr := pckt_layer_begin pckt) in *.
  set (s1 := cache inet (sipaddr hdr) (shwaddr hdr) s).
  destruct (cache_frame inet (sipaddr hdr) (shwaddr hdr) s)
    as (Hw & Hl & _ & Hrq & Htq & Hrp & Htp & Hmac & Hpx & _).
  fold s1 in Hw, Hl, Hrq, Htq, Hrp, Htp, Hmac, Hpx.
  destruct (drained_frame (waiting_packets_ s !! sipaddr hdr) (sipaddr hdr) (shwaddr hdr) s1)
    as (_ & Hrq2 & _ & _ & Htp2 & Hmac2 & Hpx2 & Hl2).
  eexists. split; [done|].
  unfold dispatch. rewrite Hreq. simpl.
  rewrite Hpx2, Hpx.
  destruct (dipaddr hdr =? ip_addr inet)%Z; [|destruct (proxy_ s) as [proxy|];
    [destruct (proxy (dipaddr hdr))|]]; simpl;
    rewrite ?Hrq2, ?Hrq, ?Htp2, ?Htp, ?Hl2, ?Hl, ?Hmac2, ?Hmac, <- ?app_assoc;
    (split; [done|]); try done.
  all: eexists; split; [done|]; done.
Qed.

Lemma receive_request_witness :
  Inv pending_arp ∧
  ∃ s',
    receive (inet_at 100) (frame_from_3 H_request ip_10_0_0_1 28) pending_arp = Ok s' ∧
    requests_rx_ s' = 1%Z ∧
    ∃ reply,
      linklayer_out_ s' =
        linklayer_out_ pending_arp ++ [mk_Link_call P1 mac_03 Ethertype_IP4] ++ [reply] ∧
      is_reply_from ip_10_0_0_1 mac_01 mac_03 reply ∧
      replies_tx_ s' = 1%Z.
Proof.
  split; [apply Inv_pending_arp|].
  apply (receive_request (inet_at 100) (frame_from_3 H_request ip_10_0_0_1 28) pending_arp);
    [apply Inv_pending_arp|done].
Defined.

(** C4, as stated, fails where it says that a request for a target that is
    neither local nor proxied produces no outbound frame: the packet that
    waited for the requester goes out. *)
Lemma request_for_other_target_drains :
  transmit (inet_at 50) P1 ip_10_0_0_3 fresh_arp = Ok pending_arp ∧
  ip_10_0_0_9 ≠ ip_addr (inet_at 100) ∧ proxy_ pending_arp = None ∧
  ∃ s',
    receive (inet_at 100) (frame_from_3 H_request ip_10_0_0_9 28) pending_arp = Ok s' ∧
    linklayer_out_ s' =
      linklayer_out_ pending_arp ++ [mk_Link_call P1 mac_03 Ethertype_IP4].
Proof.
  split; [done|]. split; [done|]. split; [done|].
  eexists. split; [vm_compute; reflexivity|]. vm_compute. reflexivity.
Qed.

(** C6, as the code has it: [receive] never looks at the length of the
    buffer.  A buffer shorter than 28 bytes is handled from the header read
    in place like any other frame: the sender is learned, what waited for the
    sender is drained, and the outcome is that of any buffer with the same
    header bytes. *)
Theorem receive_ignores_size inet pckt s :
  Inv s →
  (pckt_size pckt < 28)%Z →
  ∃ s' e,
    receive inet pckt s = Ok s' ∧
    cache_ s' !! sipaddr (pckt_layer_begin pckt) = Some e ∧
    mac e = shwaddr (pckt_layer_begin pckt) ∧
    waiting_packets_ s' !! sipaddr (pckt_layer_begin pckt) = None ∧
    ∀ pckt', pckt_layer_begin pckt' = pckt_layer_begin pckt →
             receive inet pckt' s = Ok s'.
Proof.
  intros HI _.
  destruct (receive_sender_known inet pckt s HI) as (s' & e & Hrcv & He & Hm & Hw).
  exists s', e. repeat split; try done.
  intros pckt' Hhdr. rewrite receive_returns in * by done. by rewrite Hhdr.
Qed.

Lemma receive_ignores_size_witness :
  Inv fresh_arp ∧ (pckt_size (frame_from_3 H_reply ip_10_0_0_1 10) < 28)%Z ∧
  ∃ s' e,
    receive (inet_at 100) (frame_from_3 H_reply ip_10_0_0_1 10) fresh_arp = Ok s' ∧
    cache_ s' !! ip_10_0_0_3 = Some e ∧ mac e = mac_03 ∧
    waiting_packets_ s' !! ip_10_0_0_3 = None ∧
    ∀ pckt', pckt_layer_begin pckt' = pckt_layer_begin (frame_from_3 H_reply ip_10_0_0_1 10) →
             receive (inet_at 100) pckt' fresh_arp = Ok s'.
Proof.
  split; [apply Inv_init|]. split; [done|].
  apply (receive_ignores_size (inet_at 100) (frame_from_3 H_reply ip_10_0_0_1 10) fresh_arp);
    [apply Inv_init|done].
Defined.

(** C6, as stated, fails: a buffer of 10 bytes is not discarded; its sender
    is cached and [replies_rx] counts it. *)
Lemma short_frame_is_learned :
  (pckt_size (frame_from_3 H_reply ip_10_0_0_1 10) < 28)%Z ∧
  ∃ s',
    receive (inet_at 100) (frame_from_3 H_reply ip_10_0_0_1 10) fresh_arp = Ok s' ∧
    cache_ fresh_arp !! ip_10_0_0_3 = None ∧
    cache_ s' !! ip_10_0_0_3 = Some (mk_Cache_entry mac_03 100) ∧
    replies_rx_ fresh_arp = 0%Z ∧ replies_rx_ s' = 1%Z.
Proof.
  split; [done|]. eexists. split; [vm_compute; reflexivity|].
  repeat split; vm_compute; reflexivity.
Qed.

(** [cache] is an insertion, whatever was there. *)
Lemma cache_insert inet ip m s :
  cache_ (cache inet ip m s) = <[ip := mk_Cache_entry m (time_since_boot inet)]> (cache_ s).
Proof.
  unfold cache. destruct (cache_ s !! ip) as [e|] eqn:He; simpl.
  - destruct (mac e =? m)%Z eqn:Hm; simpl.
    + unfold Cache_entry_update. by replace (mac e) with m by lia.
    + by rewrite insert_delete_eq.
  - by destruct (negb (is_running (flush_timer_ s))).
Qed.

Lemma cache_repeatedly_insert inets last ip m s :
  cache_ (cache_repeatedly (inets ++ [last]) ip m s) =
  <[ip := mk_Cache_entry m (time_since_boot last)]> (cache_ s).
Proof.
  unfold cache_repeatedly. revert s. induction inets as [|inet inets IH]; intros s; simpl.
  - apply cache_insert.
  - rewrite IH, cache_insert. apply insert_insert_eq.
Qed.

(** C7: [cache(ip, mac)] is total and leaves one entry for [ip]: with no
    entry for [ip] it inserts one stamped now, the cache grows by one and the
    flush timer is running afterwards (armed at [flush_interval_] if it was
    not running); with an entry of the same MAC only the timestamp changes;
    with an entry of another MAC the entry is replaced by the new MAC stamped
    now; in both of these the size and the timer stay.  Other addresses keep
    their entries.  Learning the same pair any number of times, at least
    once, leaves exactly the entry of the last learn. *)
Theorem cache_learn inet ip m s :
  let s' := cache inet ip m s in
  let now := time_since_boot inet in
  cache_ s' = <[ip := mk_Cache_entry m now]> (cache_ s) ∧
  match cache_ s !! ip with
  | None =>
      cache_ s' !! ip = Some (mk_Cache_entry m now) ∧
      size (cache_ s') = S (size (cache_ s)) ∧
      is_running (flush_timer_ s') = true ∧
      flush_timer_ s' =
        if is_running (flush_timer_ s) then flush_timer_ s
        else Timer_armed (flush_interval_ s)
  | Some e =>
      size (cache_ s') = size (cache_ s) ∧ flush_timer_ s' = flush_timer_ s ∧
      if decide (mac e = m) then
        cache_ s' = <[ip := mk_Cache_entry (mac e) now]> (cache_ s)
      else
        cache_ s' = <[ip := mk_Cache_entry m now]> (cache_ s)
  end ∧
  ∀ inets last,
    let sN := cache_repeatedly (inets ++ [last]) ip m s in
    cache_ sN = <[ip := mk_Cache_entry m (time_since_boot last)]> (cache_ s) ∧
    cache_ sN !! ip = Some (mk_Cache_entry m (time_since_boot last)) ∧
    size (cache_ sN) =
      match cache_ s !! ip with Some _ => size (cache_ s) | None => S (size (cache_ s)) end ∧
    (cache_repeatedly (inets ++ [last]) ip m (Arp_init (mac_ s) (flush_interval_ s))).(cache_)
      = {[ip := mk_Cache_entry m (time_since_boot last)]}.
Proof.
  intros s' now. split; [apply cache_insert|]. split.
  - subst s'. rewrite cache_insert. unfold cache.
    destruct (cache_ s !! ip) as [e|] eqn:He; simpl.
    + split; [|split].
      * rewrite map_size_insert. by rewrite He.
      * by destruct (negb (mac e =? m)%Z).
      * case_decide as Hm; [by rewrite Hm|done].
    + split; [by rewrite lookup_insert_eq|]. split; [by apply map_size_insert_None|].
      destruct (is_running (flush_timer_ s)) eqn:Hrun; simpl; by rewrite ?Hrun.
  - intros inets last sN. subst sN. rewrite !cache_repeatedly_insert.
    split; [done|]. split; [by rewrite lookup_insert_eq|]. split; [|done].
    rewrite map_size_insert. by destruct (cache_ s !! ip).
Qed.

(** [transmit] never touches the cache. *)
Lemma transmit_cache inet pckt next_hop s s' :
  transmit inet pckt next_hop s = Ok s' → cache_ s' = cache_ s.
Proof.
  unfold transmit, await_resolution.
  repeat case_match; intros [= <-]; done.
Qed.

Lemma pending_buffers_await inet pckt next_hop s :
  pending_buffers (await_resolution inet pckt next_hop s) next_hop =
  pending_buffers s next_hop ++ buffers pckt.
Proof.
  unfold pending_buffers, await_resolution.
  destruct (waiting_packets_ s !! next_hop) as [q|] eqn:Hq; simpl;
    rewrite lookup_insert_eq; [apply buffers_chain|done].
Qed.

Lemma count_if_app {A} (f : A → bool) l1 l2 :
  count_if f (l1 ++ l2) = count_if f l1 + count_if f l2.
Proof. induction l1 as [|x l1 IH]; simpl; [done|]. rewrite IH. lia. Qed.

(** C3, as the code has it: a packet of size zero is a contract violation.
    Any other packet leaves the cache as it is and: for the broadcast next
    hop it is sent once, to the broadcast MAC, as IPv4; on a cache hit it is
    sent once, to the cached MAC, as IPv4; on a cache miss it is put at the
    tail of what waits for the next hop and no IPv4 frame is sent, and a
    resolution is started (one request on the link, [requests_tx]
    incremented, resolve timer armed at one second) only when nothing was
    waiting for that next hop yet. *)
Theorem transmit_cases inet pckt next_hop s :
  if decide (pckt_size pckt = 0%Z) then
    transmit inet pckt next_hop s = Contract_violation
  else
    ∃ s',
      transmit inet pckt next_hop s = Ok s' ∧ cache_ s' = cache_ s ∧
      if decide (next_hop = ADDR_BCAST) then
        linklayer_out_ s' =
          linklayer_out_ s ++ [mk_Link_call pckt MAC_BROADCAST Ethertype_IP4] ∧
        waiting_packets_ s' = waiting_packets_ s
      else
        match cache_ s !! next_hop with
        | Some cache_entry =>
            linklayer_out_ s' =
              linklayer_out_ s ++ [mk_Link_call pckt (mac cache_entry) Ethertype_IP4] ∧
            waiting_packets_ s' = waiting_packets_ s
        | None =>
            pending_buffers s' next_hop = pending_buffers s next_hop ++ buffers pckt ∧
            count_if is_ip4_call (linklayer_out_ s') =
              count_if is_ip4_call (linklayer_out_ s) ∧
            match waiting_packets_ s !! next_hop with
            | None =>
                linklayer_out_ s' =
                  linklayer_out_ s ++ [request_call (mac_ s) inet next_hop] ∧
                requests_tx_ s' = incr32 (requests_tx_ s) ∧
                resolve_timer_ s' = Timer_armed 1
            | Some _ =>
                linklayer_out_ s' = linklayer_out_ s ∧
                requests_tx_ s' = requests_tx_ s ∧
                resolve_timer_ s' = resolve_timer_ s
            end
        end.
Proof.
  case_decide as Hsz.
  { unfold transmit. by rewrite Hsz. }
  unfold transmit. rewrite (proj2 (Z.eqb_neq _ _) Hsz).
  case_decide as Hb.
  { rewrite (proj2 (Z.eqb_eq _ _) Hb). by eexists. }
  rewrite (proj2 (Z.eqb_neq _ _) Hb).
  destruct (cache_ s !! next_hop) as [e|] eqn:He.
  { by eexists. }
  eexists. split; [done|]. split.
  { unfold await_resolution. by case_match. }
  split; [apply pending_buffers_await|].
  unfold await_resolution.
  destruct (waiting_packets_ s !! next_hop) as [q|] eqn:Hq; simpl; [done|].
  split; [|done]. rewrite count_if_app. simpl. lia.
Qed.

(** C3, as stated, fails where it says that every cache miss kicks off a
    resolution: the second packet for 10.0.0.3 misses the cache and is
    queued, and nothing is sent, counted or armed. *)
Lemma second_miss_kicks_off_nothing :
  transmit (inet_at 50) P1 ip_10_0_0_3 fresh_arp = Ok pending_arp ∧
  pckt_size P2 ≠ 0%Z ∧ ip_10_0_0_3 ≠ ADDR_BCAST ∧ cache_ pending_arp !! ip_10_0_0_3 = None ∧
  ∃ s',
    transmit (inet_at 60) P2 ip_10_0_0_3 pending_arp = Ok s' ∧
    pending_buffers s' ip_10_0_0_3 = [P1; P2] ∧
    linklayer_out_ s' = linklayer_out_ pending_arp ∧
    requests_tx_ s' = requests_tx_ pending_arp ∧
    resolve_timer_ s' = resolve_timer_ pending_arp.
Proof.
  split; [done|]. split; [done|]. split; [done|]. split; [done|].
  eexists. split; [vm_compute; reflexivity|].
  repeat split; vm_compute; reflexivity.
Qed.

(** C5, as stated, fails for the resolve timer: once the reply of 10.0.0.3
    has drained the only waiting packet, [receive] returns with an empty
    queue and the resolve timer still armed. *)
Lemma resolve_timer_outlives_queue :
  ∃ s,
    run miss_then_reply fresh_arp = Ok s ∧ reachable s ∧
    waiting_packets_ s = ∅ ∧ is_running (resolve_timer_ s) = true.
Proof.
  exists (state_after miss_then_reply).
  assert (run miss_then_reply fresh_arp = Ok (state_after miss_then_reply))
    as Hrun by (vm_compute; reflexivity).
  split; [exact Hrun|]. split.
  - by exists mac_01, 300%Z, miss_then_reply.
  - split; vm_compute; reflexivity.
Qed.

(** Where a cache entry can come from in one step. *)
Lemma step_cache_origin op s s' ip :
  step op s = Ok s' → is_Some (cache_ s' !! ip) →
  is_Some (cache_ s !! ip) ∨
  ∃ inet pckt, op = Receive inet pckt ∧ sipaddr (pckt_layer_begin pckt) = ip.
Proof.
  destruct op as [inet pckt|inet pckt next_hop|inet|inet|p]; simpl.
  - rewrite receive_unfold.
    set (hdr := pckt_layer_begin pckt).
    set (s1 := cache inet (sipaddr hdr) (shwaddr hdr) s).
    destruct (drain inet (sipaddr hdr) s1) as [s2|] eqn:Hdrain; simpl; [|done].
    intros [= <-] Hsome.
    destruct (dispatch_frame inet hdr s2) as (Hc & _). simpl in Hc. rewrite Hc in Hsome.
    assert (cache_ s2 = cache_ s1) as Hc2.
    { unfold drain in Hdrain. destruct (waiting_packets_ s1 !! sipaddr hdr) as [w|].
      - destruct (transmit inet w (sipaddr hdr) s1) as [s3|] eqn:Htx; simpl in Hdrain; [|done].
        injection Hdrain as <-. simpl. by eapply transmit_cache.
      - by injection Hdrain as <-. }
    rewrite Hc2 in Hsome.
    destruct (decide (sipaddr hdr = ip)) as [Heq|Hne].
    + right. by exists inet, pckt.
    + left. subst s1. by rewrite cache_lookup_ne in Hsome.
  - intros Htx Hsome. left. by rewrite (transmit_cache _ _ _ _ _ Htx) in Hsome.
  - intros [= <-] Hsome. left. unfold resolve_timer_fires in Hsome.
    destruct (is_running (resolve_timer_ s)); [|done].
    destruct (resolve_waiting_frame inet (set_resolve_timer Timer_stop s)) as (Hc & _).
    by rewrite Hc in Hsome.
  - intros [= <-] Hsome. left. unfold flush_timer_fires in Hsome.
    destruct (is_running (flush_timer_ s)); [|done].
    destruct (flush_expired_frame inet (set_flush_timer Timer_stop s)) as (_ & _ & _ & Hc).
    destruct (cache_ s !! ip) as [e|] eqn:He; [done|].
    rewrite (Hc ip) in Hsome by done. by destruct Hsome.
  - intros [= <-] Hsome. by left.
Qed.

Lemma run_cache_origin ops s s' ip :
  run ops s = Ok s' → is_Some (cache_ s' !! ip) →
  is_Some (cache_ s !! ip) ∨
  ∃ inet pckt, Receive inet pckt ∈ ops ∧ sipaddr (pckt_layer_begin pckt) = ip.
Proof.
  revert s. induction ops as [|op ops IH]; intros s; simpl.
  - intros [= <-] Hsome. by left.
  - destruct (step op s) as [s1|] eqn:Hstep; simpl; [|done].
    intros Hrun Hsome.
    destruct (IH s1 Hrun Hsome) as [Hs1|(inet & pckt & Hin & Hip)].
    + destruct (step_cache_origin op s s1 ip Hstep Hs1) as [Hs|(inet & pckt & -> & Hip)].
      * by left.
      * right. exists inet, pckt. split; [|done]. apply list_elem_of_here.
    + right. exists inet, pckt. split; [|done]. by apply list_elem_of_further.
Qed.

(** C9, as the code has it: in every reachable state an address has a cache
    entry only if some frame received so far named it as its sender IPv4.
    [transmit] and the timers add nothing; the local IPv4 and the broadcast
    address are not treated apart from other senders. *)
Theorem cache_holds_senders_only link_addr flush_interval ops s ip :
  run ops (Arp_init link_addr flush_interval) = Ok s →
  is_Some (cache_ s !! ip) →
  ∃ inet pckt, Receive inet pckt ∈ ops ∧ sipaddr (pckt_layer_begin pckt) = ip.
Proof.
  intros Hrun Hsome.
  destruct (run_cache_origin ops _ s ip Hrun Hsome) as [Hinit|Hrcv]; [|done].
  simpl in Hinit. rewrite lookup_empty in Hinit. by destruct Hinit.
Qed.

Lemma cache_holds_senders_only_witness :
  run miss_then_reply (Arp_init mac_01 300) = Ok (state_after miss_then_reply) ∧
  is_Some (cache_ (state_after miss_then_reply) !! ip_10_0_0_3) ∧
  ∃ inet pckt,
    Receive inet pckt ∈ miss_then_reply ∧ sipaddr (pckt_layer_begin pckt) = ip_10_0_0_3.
Proof.
  assert (run miss_then_reply (Arp_init mac_01 300) = Ok (state_after miss_then_reply))
    as Hrun by (vm_compute; reflexivity).
  assert (is_Some (cache_ (state_after miss_then_reply) !! ip_10_0_0_3))
    as Hsome by (vm_compute; eexists; reflexivity).
  split; [exact Hrun|]. split; [exact Hsome|].
  apply (cache_holds_senders_only mac_01 300 miss_then_reply
           (state_after miss_then_reply) ip_10_0_0_3 Hrun Hsome).
Defined.

(** C9, as stated, fails: a frame that names the local IPv4 as its sender,
    and one that names the broadcast address, put both into the cache. *)
Lemma local_and_broadcast_get_cached :
  ∃ s,
    run [Receive (inet_at 100) frame_from_self;
         Receive (inet_at 101) frame_from_bcast] fresh_arp = Ok s ∧
    cache_ s !! ip_addr (inet_at 101) = Some (mk_Cache_entry mac_03 100) ∧
    cache_ s !! ADDR_BCAST = Some (mk_Cache_entry mac_03 101).
Proof.
  eexists. split; [vm_compute; reflexivity|]. split; vm_compute; reflexivity.
Qed.

(** ** Counting link calls *)

Lemma count_if_Permutation {A} (f : A → bool) l1 l2 :
  l1 ≡ₚ l2 → count_if f l1 = count_if f l2.
Proof. induction 1; simpl; lia. Qed.

Lemma request_call_for ip m inet next_hop :
  is_request_for ip (request_call m inet next_hop) = bool_decide (next_hop = ip).
Proof.
  unfold is_request_for. simpl.
  case_bool_decide as Heq.
  - subst. apply Z.eqb_refl.
  - by apply Z.eqb_neq.
Qed.

Lemma count_requests_resolve ip m inet (w : gmap Z Packet) :
  count_if (is_request_for ip) ((λ it, request_call m inet it.1) <$> map_to_list w) =
  if bool_decide (is_Some (w !! ip)) then 1 else 0.
Proof.
  induction w as [|i x w Hi IH] using map_ind.
  - rewrite map_to_list_empty. simpl. rewrite lookup_empty.
    rewrite bool_decide_eq_false_2; [done|]. by intros [? ?].
  - rewrite (count_if_Permutation _ _
      ((λ it, request_call m inet it.1) <$> ((i, x) :: map_to_list w))).
    2: { apply fmap_Permutation. by apply map_to_list_insert. }
    rewrite fmap_cons. cbn [count_if fst]. rewrite IH, request_call_for.
    destruct (decide (i = ip)) as [->|Hne].
    + rewrite lookup_insert_eq, Hi.
      rewrite bool_decide_eq_true_2 by done.
      rewrite (bool_decide_eq_true_2 (is_Some (Some x))) by eauto.
      rewrite bool_decide_eq_false_2; [done|]. by intros [? ?].
    + rewrite lookup_insert_ne by done.
      by rewrite bool_decide_eq_false_2.
Qed.


Lemma dispatch_calls_count ip inet hdr s :
  count_if (is_request_for ip) (dispatch_calls inet hdr s) = 0 ∧
  count_if is_ip4_call (dispatch_calls inet hdr s) = 0 ∧
  Forall (λ c, call_type c = Ethertype_ARP) (dispatch_calls inet hdr s).
Proof.
  unfold dispatch_calls. repeat case_match; simpl; repeat split; try done;
    repeat constructor.
Qed.

(** ** One step while a peer stays silent *)



(** ** A run while a peer stays silent *)





(** ** What is waiting is what was enqueued *)

Lemma pending_buffers_await_ne inet pckt next_hop s ip :
  next_hop ≠ ip →
  pending_buffers (await_resolution inet pckt next_hop s) ip = pending_buffers s ip.
Proof.
  intros Hne. unfold pending_buffers, await_resolution.
  destruct (waiting_packets_ s !! next_hop); simpl; by rewrite lookup_insert_ne.
Qed.

Lemma enqueued_step ip op s s' :
  Inv s → step op s = Ok s' →
  pending_buffers s' ip =
  match op with
  | Transmit _ pckt next_hop =>
      if decide (next_hop = ip ∧ next_hop ≠ ADDR_BCAST ∧ cache_ s !! next_hop = None)
      then pending_buffers s ip ++ buffers pckt
      else pending_buffers s ip
  | Receive _ pckt =>
      if decide (sipaddr (pckt_layer_begin pckt) = ip) then [] else pending_buffers s ip
  | _ => pending_buffers s ip
  end.
Proof.
  intros HI. destruct op as [inet pckt|inet pckt next_hop|inet|inet|p]; simpl.
  - rewrite receive_returns by done. intros [= <-].
    set (hdr := pckt_layer_begin pckt).
    destruct (cache_frame inet (sipaddr hdr) (shwaddr hdr) s) as (Hw & _).
    match goal with |- context [dispatch inet hdr ?s2] =>
      destruct (dispatch_frame inet hdr s2) as (_ & Hw2 & _) end.
    unfold pending_buffers. rewrite Hw2.
    case_decide as Hip.
    + subst ip. destruct (waiting_packets_ s !! sipaddr hdr) as [w|] eqn:Hq; simpl.
      * by rewrite lookup_delete_eq.
      * by rewrite Hw, Hq.
    + destruct (waiting_packets_ s !! sipaddr hdr) as [w|] eqn:Hq; simpl.
      * by rewrite lookup_delete_ne, Hw.
      * by rewrite Hw.
  - unfold transmit. destruct (pckt_size pckt =? 0)%Z; [done|].
    destruct (next_hop =? ADDR_BCAST)%Z eqn:Hb.
    { intros [= <-]. rewrite decide_False; [done|]. intros (_ & Hne & _). lia. }
    destruct (cache_ s !! next_hop) as [e|] eqn:He; intros [= <-].
    { rewrite decide_False; [done|]. by intros (_ & _ & ?). }
    case_decide as Hcond.
    + destruct Hcond as (-> & _ & _). apply pending_buffers_await.
    + apply pending_buffers_await_ne. intros ->. apply Hcond.
      split; [done|]. split; [lia|done].
  - intros [= <-]. unfold resolve_timer_fires.
    destruct (is_running (resolve_timer_ s)); [|done].
    destruct (resolve_waiting_frame inet (set_resolve_timer Timer_stop s)) as (_ & Hw & _).
    unfold pending_buffers. by rewrite Hw.
  - intros [= <-]. unfold flush_timer_fires.
    destruct (is_running (flush_timer_ s)); [|done].
    destruct (flush_expired_frame inet (set_flush_timer Timer_stop s)) as (Hw & _).
    unfold pending_buffers. by rewrite Hw.
  - by intros [= <-].
Qed.

Lemma enqueued_run ip ops s s' :
  Inv s → run ops s = Ok s' →
  pending_buffers s' ip = enqueued ip ops s (pending_buffers s ip).
Proof.
  revert s. induction ops as [|op ops IH]; intros s HI; simpl.
  - by intros [= <-].
  - destruct (step op s) as [s1|] eqn:Hstep; simpl; [|done].
    intros Hrun. rewrite (IH s1) by (by try eapply Inv_step).
    by rewrite (enqueued_step ip op s s1).
Qed.

Lemma timers_keep_waiting inet s :
  waiting_packets_ (resolve_timer_fires inet s) = waiting_packets_ s ∧
  waiting_packets_ (flush_timer_fires inet s) = waiting_packets_ s.
Proof.
  split.
  - unfold resolve_timer_fires. destruct (is_running (resolve_timer_ s)); [|done].
    by destruct (resolve_waiting_frame inet (set_resolve_timer Timer_stop s)) as (_ & -> & _).
  - unfold flush_timer_fires. destruct (is_running (flush_timer_ s)); [|done].
    by destruct (flush_expired_frame inet (set_flush_timer Timer_stop s)) as (-> & _).
Qed.

(** C2: after any run of the module, a frame of any opcode from [ip] makes
    [receive] hand to the link, before anything the opcode asks for and
    before it returns, every buffer enqueued for [ip] and not yet drained, in
    the order of enqueueing, each to the frame's sender MAC and as IPv4; the
    entry for [ip] is gone afterwards; and the firing of either timer leaves
    the waiting packets as they are. *)
Theorem receive_drains_in_order link_addr flush_interval ops s inet pckt :
  run ops (Arp_init link_addr flush_interval) = Ok s →
  ∃ s' drained rest,
    receive inet pckt s = Ok s' ∧
    linklayer_out_ s' = linklayer_out_ s ++ drained ++ rest ∧
    concat (delivered <$> drained) =
      (λ b, (b, shwaddr (pckt_layer_begin pckt), Ethertype_IP4)) <$>
        enqueued (sipaddr (pckt_layer_begin pckt)) ops
          (Arp_init link_addr flush_interval) [] ∧
    Forall (λ c, call_type c = Ethertype_ARP) rest ∧
    waiting_packets_ s' !! sipaddr (pckt_layer_begin pckt) = None ∧
    ∀ inet',
      waiting_packets_ (resolve_timer_fires inet' s) = waiting_packets_ s ∧
      waiting_packets_ (flush_timer_fires inet' s) = waiting_packets_ s.
Proof.
  intros Hrun.
  pose proof (Inv_run _ _ _ (Inv_init link_addr flush_interval) Hrun) as HI.
  pose proof (enqueued_run (sipaddr (pckt_layer_begin pckt)) _ _ _
                (Inv_init link_addr flush_interval) Hrun) as Henq.
  change (pending_buffers (Arp_init link_addr flush_interval) _) with (@nil Packet) in Henq.
  rewrite <- Henq. clear Henq.
  destruct (receive_sender_known inet pckt s HI) as (s' & e & Hrcv & _ & _ & Hgone).
  set (hdr := pckt_layer_begin pckt) in *.
  exists s',
    (match waiting_packets_ s !! sipaddr hdr with
     | Some waiting => [mk_Link_call waiting (shwaddr hdr) Ethertype_IP4]
     | None => []
     end),
    (dispatch_calls inet hdr
       match waiting_packets_ s !! sipaddr hdr with
       | Some waiting =>
           set_waiting_packets (delete (sipaddr hdr))
             (linklayer_out waiting (shwaddr hdr) Ethertype_IP4
                (cache inet (sipaddr hdr) (shwaddr hdr) s))
       | None => cache inet (sipaddr hdr) (shwaddr hdr) s
       end).
  split; [done|]. split.
  { rewrite receive_returns in Hrcv by done. injection Hrcv as <-.
    rewrite dispatch_out. fold hdr.
    destruct (cache_frame inet (sipaddr hdr) (shwaddr hdr) s) as (_ & Hl & _).
    destruct (drained_frame (waiting_packets_ s !! sipaddr hdr) (sipaddr hdr) (shwaddr hdr)
                (cache inet (sipaddr hdr) (shwaddr hdr) s)) as (_ & _ & _ & _ & _ & _ & _ & Hl2).
    rewrite Hl2, Hl. by rewrite <- app_assoc. }
  split.
  { unfold pending_buffers. destruct (waiting_packets_ s !! sipaddr hdr) as [w|]; simpl.
    - unfold delivered. simpl. by rewrite app_nil_r.
    - done. }
  split.
  { match goal with |- context [dispatch_calls inet hdr ?s2] =>
      by destruct (dispatch_calls_count 0 inet hdr s2) as (_ & _ & ?) end. }
  split; [done|].
  intros inet'. apply timers_keep_waiting.
Qed.

Lemma receive_drains_in_order_witness :
  run two_packets_queued fresh_arp = Ok (state_after two_packets_queued) ∧
  ∃ s' drained rest,
    receive (inet_at 100) (frame_from_3 H_reply ip_10_0_0_1 28)
      (state_after two_packets_queued) = Ok s' ∧
    linklayer_out_ s' =
      linklayer_out_ (state_after two_packets_queued) ++ drained ++ rest ∧
    concat (delivered <$> drained) =
      [(P1, mac_03, Ethertype_IP4); (P2, mac_03, Ethertype_IP4)] ∧
    Forall (λ c, call_type c = Ethertype_ARP) rest ∧
    waiting_packets_ s' !! ip_10_0_0_3 = None ∧
    ∀ inet',
      waiting_packets_ (resolve_timer_fires inet' (state_after two_packets_queued)) =
        waiting_packets_ (state_after two_packets_queued) ∧
      waiting_packets_ (flush_timer_fires inet' (state_after two_packets_queued)) =
        waiting_packets_ (state_after two_packets_queued).
Proof.
  split; [vm_compute; reflexivity|].
  apply (receive_drains_in_order mac_01 300 two_packets_queued
           (state_after two_packets_queued)
           (inet_at 100) (frame_from_3 H_reply ip_10_0_0_1 28)).
  vm_compute. reflexivity.
Defined.

(** ** The scenarios of the specification, run on the model *)

(** Lookup and reply: a request for the local address is counted, learned
    from, and answered to the requester. *)
Example scenario_lookup_and_reply :
  ∃ s,
    receive (inet_at 100) (frame_from_3 H_request ip_10_0_0_1 28) fresh_arp = Ok s ∧
    requests_rx_ s = 1%Z ∧ replies_tx_ s = 1%Z ∧
    cache_ s !! ip_10_0_0_3 = Some (mk_Cache_entry mac_03 100) ∧
    linklayer_out_ s =
      [mk_Link_call
         (mk_Packet 28
            (mk_header H_htype_eth H_ptype_ip4 H_hlen_plen H_reply
               mac_01 ip_10_0_0_1 mac_03 ip_10_0_0_3) [] None)
         mac_03 Ethertype_ARP].
Proof.
  eexists. split; [vm_compute; reflexivity|]. repeat split; vm_compute; reflexivity.
Qed.

(** Expiry: an entry learned at time 100 is swept at time 100 + 300 and the
    flush timer is left stopped. *)
Example scenario_expiry :
  ∃ s,
    run [Receive (inet_at 100) (frame_from_3 H_reply ip_10_0_0_1 28);
         Flush_timer (inet_at 400)] fresh_arp = Ok s ∧
    cache_ s = ∅ ∧ flush_timer_ s = Timer_stopped.
Proof.
  eexists. split; [vm_compute; reflexivity|]. split; vm_compute; reflexivity.
Qed.

(** An entry that is not yet old stays, and the flush timer is armed again. *)
Example scenario_no_expiry :
  ∃ s,
    run [Receive (inet_at 100) (frame_from_3 H_reply ip_10_0_0_1 28);
         Flush_timer (inet_at 399)] fresh_arp = Ok s ∧
    cache_ s !! ip_10_0_0_3 = Some (mk_Cache_entry mac_03 100) ∧
    flush_timer_ s = Timer_armed 300.
Proof.
  eexists. split; [vm_compute; reflexivity|]. split; vm_compute; reflexivity.
Qed.

(** ** The effect of each operation, field by field *)

Lemma dispatch_calls_responds inet hdr s :
  dispatch_calls inet hdr s =
  if responds inet hdr s then [reply_call (mac_ s) hdr (dipaddr hdr)] else [].
Proof.
  unfold dispatch_calls, responds.
  destruct (opcode hdr =? H_request)%Z; simpl; [|done].
  destruct (dipaddr hdr =? ip_addr inet)%Z eqn:Hd; simpl.
  - by replace (ip_addr inet) with (dipaddr hdr) by lia.
  - destruct (proxy_ s) as [proxy|]; [|done]. by destruct (proxy (dipaddr hdr)).
Qed.

Lemma dispatch_counters inet hdr s :
  let s' := dispatch inet hdr s in
  replies_tx_ s' = (if responds inet hdr s then incr32 (replies_tx_ s) else replies_tx_ s) ∧
  requests_rx_ s' =
    (if (opcode hdr =? H_request)%Z then incr32 (requests_rx_ s) else requests_rx_ s) ∧
  replies_rx_ s' =
    (if (opcode hdr =? H_reply)%Z then incr32 (replies_rx_ s) else replies_rx_ s) ∧
  proxy_ s' = proxy_ s ∧ flush_interval_ s' = flush_interval_ s.
Proof.
  unfold dispatch, responds.
  destruct (opcode hdr =? H_request)%Z eqn:Hreq; simpl.
  - assert ((opcode hdr =? H_reply)%Z = false) as -> by (unfold H_request, H_reply in *; lia).
    destruct (dipaddr hdr =? ip_addr inet)%Z; simpl; [done|].
    destruct (proxy_ s) as [proxy|] eqn:Hp; simpl;
      [destruct (proxy (dipaddr hdr)); simpl|]; by rewrite ?Hp.
  - by destruct (opcode hdr =? H_reply)%Z.
Qed.

(** What [receive] does to every field, in a state that satisfies [Inv]. *)
Lemma receive_effect inet pckt s :
  Inv s →
  let hdr := pckt_layer_begin pckt in
  ∃ s',
    receive inet pckt s = Ok s' ∧
    cache_ s' = <[sipaddr hdr := mk_Cache_entry (shwaddr hdr) (time_since_boot inet)]> (cache_ s) ∧
    waiting_packets_ s' = delete (sipaddr hdr) (waiting_packets_ s) ∧
    linklayer_out_ s' =
      linklayer_out_ s ++
        match waiting_packets_ s !! sipaddr hdr with
        | Some waiting => [mk_Link_call waiting (shwaddr hdr) Ethertype_IP4]
        | None => []
        end ++
        (if responds inet hdr s then [reply_call (mac_ s) hdr (dipaddr hdr)] else []) ∧
    requests_tx_ s' = requests_tx_ s ∧
    replies_tx_ s' = (if responds inet hdr s then incr32 (replies_tx_ s) else replies_tx_ s) ∧
    requests_rx_ s' =
      (if (opcode hdr =? H_request)%Z then incr32 (requests_rx_ s) else requests_rx_ s) ∧
    replies_rx_ s' =
      (if (opcode hdr =? H_reply)%Z then incr32 (replies_rx_ s) else replies_rx_ s) ∧
    mac_ s' = mac_ s ∧ proxy_ s' = proxy_ s ∧ resolve_timer_ s' = resolve_timer_ s ∧
    flush_interval_ s' = flush_interval_ s.
Proof.
  intros HI hdr. rewrite receive_returns by done. fold hdr.
  set (s1 := cache inet (sipaddr hdr) (shwaddr hdr) s).
  destruct (cache_frame inet (sipaddr hdr) (shwaddr hdr) s)
    as (Hw & Hl & Hrt & Hrq & Htq & Hrp & Htp & Hmac & Hpx & Hfi).
  fold s1 in Hw, Hl, Hrt, Hrq, Htq, Hrp, Htp, Hmac, Hpx, Hfi.
  pose proof (cache_insert inet (sipaddr hdr) (shwaddr hdr) s) as Hc. fold s1 in Hc.
  set (s2 := match waiting_packets_ s !! sipaddr hdr with
             | Some waiting =>
                 set_waiting_packets (delete (sipaddr hdr))
                   (linklayer_out waiting (shwaddr hdr) Ethertype_IP4 s1)
             | None => s1
             end).
  assert (cache_ s2 = cache_ s1 ∧ waiting_packets_ s2 = delete (sipaddr hdr) (waiting_packets_ s) ∧
          linklayer_out_ s2 = linklayer_out_ s ++
            match waiting_packets_ s !! sipaddr hdr with
            | Some waiting => [mk_Link_call waiting (shwaddr hdr) Ethertype_IP4]
            | None => []
            end ∧
          requests_tx_ s2 = requests_tx_ s ∧ replies_tx_ s2 = replies_tx_ s ∧
          requests_rx_ s2 = requests_rx_ s ∧ replies_rx_ s2 = replies_rx_ s ∧
          mac_ s2 = mac_ s ∧ proxy_ s2 = proxy_ s ∧ resolve_timer_ s2 = resolve_timer_ s ∧
          flush_interval_ s2 = flush_interval_ s)
    as (Hc2 & Hw2 & Hl2 & Htq2 & Htp2 & Hrq2 & Hrp2 & Hmac2 & Hpx2 & Hrt2 & Hfi2).
  { subst s2. destruct (waiting_packets_ s !! sipaddr hdr) as [w|] eqn:Hq; simpl.
    - rewrite Hw, Hl. done.
    - rewrite Hw, Hl, app_nil_r, delete_id by done. done. }
  destruct (dispatch_frame inet hdr s2) as (Hc3 & Hw3 & _ & Hrt3 & Hmac3 & Htq3).
  destruct (dispatch_counters inet hdr s2) as (Htp3 & Hrq3 & Hrp3 & Hpx3 & Hfi3).
  assert (responds inet hdr s2 = responds inet hdr s) as Hresp.
  { unfold responds. by rewrite Hpx2. }
  eexists. split; [done|].
  rewrite Hc3, Hc2, Hc, Hw3, Hw2, dispatch_out, dispatch_calls_responds, Hl2, Htq3, Htq2.
  rewrite Htp3, Hrq3, Hrp3, Hresp, Htp2, Hrq2, Hrp2, Hmac3, Hmac2, Hpx3, Hpx2, Hrt3, Hrt2.
  rewrite Hfi3, Hfi2, <- app_assoc. done.
Qed.

(** What [Arp::arp_resolve] changes: one more call, one more request sent. *)
Lemma resolve_loop_tx inet (l : list (Z * Packet)) s :
  requests_tx_ (foldl (λ s' packet_it, arp_resolve inet packet_it.1 s') s l) =
  Nat.iter (length l) incr32 (requests_tx_ s).
Proof.
  revert s. induction l as [|it l IH]; intros s; simpl; [done|].
  rewrite IH. simpl. clear IH. induction (length l) as [|n IHn]; simpl; [done|].
  by rewrite IHn.
Qed.

Lemma incr32_count n : incr32 (Z.of_nat n mod 2 ^ 32) = (Z.of_nat (S n) mod 2 ^ 32)%Z.
Proof.
  unfold incr32. rewrite Zplus_mod_idemp_l. f_equal. lia.
Qed.

Lemma incr32_iter k n :
  Nat.iter k incr32 (Z.of_nat n mod 2 ^ 32)%Z = (Z.of_nat (n + k) mod 2 ^ 32)%Z.
Proof.
  induction k as [|k IH]; simpl.
  - by rewrite Nat.add_0_r.
  - rewrite IH, incr32_count. f_equal. lia.
Qed.

(** ** [flush_expired], exactly *)

Lemma flush_loop_lookup (l : list Z) s ip :
  cache_ (foldl (λ s' ip, set_cache (delete ip) s') s l) !! ip =
  if bool_decide (ip ∈ l) then None else cache_ s !! ip.
Proof.
  revert s. induction l as [|i l IH]; intros s; simpl.
  - done.
  - rewrite IH. change (cache_ (set_cache (delete i) s)) with (delete i (cache_ s)).
    destruct (decide (ip ∈ l)) as [Hin|Hnin].
    + rewrite !bool_decide_eq_true_2; [done| |done]. by apply list_elem_of_further.
    + rewrite (bool_decide_eq_false_2 (ip ∈ l)) by done.
      destruct (decide (i = ip)) as [->|Hne].
      * rewrite bool_decide_eq_true_2 by apply list_elem_of_here. apply lookup_delete_eq.
      * rewrite lookup_delete_ne by done.
        rewrite bool_decide_eq_false_2; [done|].
        intros [?|?]%elem_of_cons; congruence.
Qed.

Lemma flush_loop_rest (l : list Z) s :
  let s' := foldl (λ s' ip, set_cache (delete ip) s') s l in
  requests_rx_ s' = requests_rx_ s ∧ requests_tx_ s' = requests_tx_ s ∧
  replies_rx_ s' = replies_rx_ s ∧ replies_tx_ s' = replies_tx_ s ∧
  mac_ s' = mac_ s ∧ proxy_ s' = proxy_ s.
Proof.
  revert s. induction l as [|i l IH]; intros s; simpl; [done|].
  specialize (IH (set_cache (delete i) s)). simpl in IH. done.
Qed.

(** What [flush_expired] does to every field. *)
Lemma flush_expired_effect inet s :
  let s' := flush_expired inet s in
  let expired e := Cache_entry_expired (time_since_boot inet) (flush_interval_ s) e in
  cache_ s' = filter (λ ent, expired ent.2 = false) (cache_ s) ∧
  flush_timer_ s' =
    (if decide (cache_ s' = ∅) then flush_timer_ s else Timer_armed (flush_interval_ s)) ∧
  linklayer_out_ s' = linklayer_out_ s ∧ waiting_packets_ s' = waiting_packets_ s ∧
  resolve_timer_ s' = resolve_timer_ s ∧
  requests_rx_ s' = requests_rx_ s ∧ requests_tx_ s' = requests_tx_ s ∧
  replies_rx_ s' = replies_rx_ s ∧ replies_tx_ s' = replies_tx_ s ∧
  mac_ s' = mac_ s ∧ proxy_ s' = proxy_ s.
Proof.
  intros s' expired. subst s'. unfold flush_expired.
  set (l := (filter (λ ent : Z * Cache_entry,
                Cache_entry_expired (time_since_boot inet) (flush_interval_ s) ent.2 = true)
               (map_to_list (cache_ s))).*1).
  set (s1 := foldl (λ s' ip, set_cache (delete ip) s') s l).
  destruct (flush_loop l s) as (Hw & Hf & Hr & Hl & Hi & _).
  destruct (flush_loop_rest l s) as (Hrq & Htq & Hrp & Htp & Hmac & Hpx).
  fold s1 in Hw, Hf, Hr, Hl, Hi, Hrq, Htq, Hrp, Htp, Hmac, Hpx.
  assert (cache_ s1 = filter (λ ent, expired ent.2 = false) (cache_ s)) as Hc.
  { apply map_eq. intros ip. apply option_eq. intros e.
    rewrite map_lookup_filter_Some. subst s1. rewrite flush_loop_lookup.
    assert (ip ∈ l ↔ ∃ e', cache_ s !! ip = Some e' ∧ expired e' = true) as Hin.
    { subst l. rewrite list_elem_of_fmap. split.
      - intros ([i e'] & -> & [Hexp Hel]%list_elem_of_filter).
        apply elem_of_map_to_list in Hel. by exists e'.
      - intros (e' & He' & Hexp). exists (ip, e'). split; [done|].
        apply list_elem_of_filter. split; [done|]. by apply elem_of_map_to_list. }
    case_bool_decide as Hdec.
    - apply Hin in Hdec as (e' & He' & Hexp). split; [done|].
      intros [He Hne]. simpl in Hne. congruence.
    - split.
      + intros He. split; [done|]. simpl.
        destruct (expired e) eqn:Hexp; [|done]. exfalso. apply Hdec, Hin. by exists e.
      + by intros [He _]. }
  destruct (bool_decide (cache_ s1 = ∅)) eqn:Hemp; simpl.
  - apply bool_decide_eq_true in Hemp. rewrite decide_True by done. done.
  - apply bool_decide_eq_false in Hemp. rewrite decide_False by done.
    rewrite Hi. done.
Qed.

(** ** Bookkeeping is kept by every operation *)

Lemma count_requests_sent m inet (l : list (Z * Packet)) :
  count_if is_arp_request ((λ it, request_call m inet it.1) <$> l) = length l ∧
  count_if is_arp_reply ((λ it, request_call m inet it.1) <$> l) = 0.
Proof.
  induction l as [|it l [IH1 IH2]]; [done|].
  rewrite fmap_cons. cbn [count_if length]. rewrite IH1, IH2. done.
Qed.

Lemma request_call_well_formed m inet next_hop :
  well_formed_call m (request_call m inet next_hop).
Proof. unfold well_formed_call. simpl. repeat split; try done. by left. Qed.

Lemma reply_call_well_formed m hdr ack_ip :
  well_formed_call m (reply_call m hdr ack_ip).
Proof. unfold well_formed_call. simpl. repeat split; try done. by right. Qed.

Lemma resolve_waiting_effect inet s :
  let s' := resolve_waiting inet s in
  let calls :=
    if decide (waiting_packets_ s = ∅) then []
    else (λ it, request_call (mac_ s) inet it.1) <$> map_to_list (waiting_packets_ s) in
  cache_ s' = cache_ s ∧ waiting_packets_ s' = waiting_packets_ s ∧
  mac_ s' = mac_ s ∧ proxy_ s' = proxy_ s ∧
  requests_rx_ s' = requests_rx_ s ∧ replies_rx_ s' = replies_rx_ s ∧
  replies_tx_ s' = replies_tx_ s ∧
  requests_tx_ s' = Nat.iter (length calls) incr32 (requests_tx_ s) ∧
  linklayer_out_ s' = linklayer_out_ s ++ calls.
Proof.
  unfold resolve_waiting. destruct (decide (waiting_packets_ s = ∅)) as [Hemp|Hne]; simpl.
  - by rewrite app_nil_r.
  - pose proof (resolve_loop_tx inet (map_to_list (waiting_packets_ s)) s) as Htx.
    destruct (resolve_loop inet (map_to_list (waiting_packets_ s)) s)
      as (-> & -> & _ & _ & -> & -> & _ & -> & -> & -> & ->).
    rewrite Htx, length_fmap. done.
Qed.

Lemma Bookkeeping_init link_addr flush_interval :
  Bookkeeping (Arp_init link_addr flush_interval).
Proof.
  split; simpl; try done; intros ip [? H]; by rewrite lookup_empty in H.
Qed.

Lemma Bookkeeping_receive inet pckt s s' :
  Inv s → Bookkeeping s → receive inet pckt s = Ok s' → Bookkeeping s'.
Proof.
  intros HI [Htq Htp Hcalls Hdisj Hreq] Hrcv.
  destruct (receive_effect inet pckt s HI)
    as (s1 & Hrcv1 & Hc & Hw & Hl & Htq1 & Htp1 & _ & _ & Hmac & _).
  rewrite Hrcv in Hrcv1. injection Hrcv1 as <-.
  set (hdr := pckt_layer_begin pckt) in *.
  split.
  - rewrite Htq1, Htq, Hl, !count_if_app.
    destruct (waiting_packets_ s !! sipaddr hdr); destruct (responds inet hdr s); simpl;
      do 2 f_equal; lia.
  - rewrite Htp1, Htp, Hl, !count_if_app.
    destruct (waiting_packets_ s !! sipaddr hdr); destruct (responds inet hdr s); simpl;
      rewrite ?incr32_count; do 2 f_equal; lia.
  - rewrite Hmac, Hl. apply Forall_app. split; [done|]. apply Forall_app. split.
    + destruct (waiting_packets_ s !! sipaddr hdr) as [w|] eqn:Hq; [|constructor].
      constructor; [|constructor]. unfold well_formed_call. simpl.
      by eapply (Inv_size s HI).
    + destruct (responds inet hdr s); [|constructor].
      constructor; [|constructor]. apply reply_call_well_formed.
  - intros ip. rewrite Hc, Hw. destruct (decide (sipaddr hdr = ip)) as [->|Hne].
    + intros _. apply lookup_delete_eq.
    + rewrite lookup_insert_ne, lookup_delete_ne by done. apply Hdisj.
  - intros ip. rewrite Hw, Hl. intros [q Hq]. apply lookup_delete_Some in Hq as [_ Hq].
    apply Exists_app. left. apply Hreq. eauto.
Qed.

Lemma Bookkeeping_transmit inet pckt next_hop s s' :
  Bookkeeping s → transmit inet pckt next_hop s = Ok s' → Bookkeeping s'.
Proof.
  intros [Htq Htp Hcalls Hdisj Hreq]. unfold transmit.
  destruct (pckt_size pckt =? 0)%Z eqn:Hsz; [done|].
  assert (well_formed_call (mac_ s) (mk_Link_call pckt MAC_BROADCAST Ethertype_IP4) ∧
          ∀ m, well_formed_call (mac_ s) (mk_Link_call pckt m Ethertype_IP4)) as [Hwf1 Hwf2].
  { unfold well_formed_call. simpl. split; [|intros _]; lia. }
  destruct (next_hop =? ADDR_BCAST)%Z.
  { intros [= <-]. split; simpl; rewrite ?count_if_app; simpl; rewrite ?Nat.add_0_r; try done.
    - apply Forall_app. split; [done|]. by constructor.
    - intros ip Hip. apply Exists_app. left. by apply Hreq. }
  destruct (cache_ s !! next_hop) as [e|] eqn:He.
  { intros [= <-]. split; simpl; rewrite ?count_if_app; simpl; rewrite ?Nat.add_0_r; try done.
    - apply Forall_app. split; [done|]. by constructor.
    - intros ip Hip. apply Exists_app. left. by apply Hreq. }
  intros [= <-]. unfold await_resolution.
  destruct (waiting_packets_ s !! next_hop) as [q|] eqn:Hq.
  - split; simpl; try done.
    + intros ip Hip. destruct (decide (next_hop = ip)) as [->|Hne].
      * rewrite He in Hip. by destruct Hip.
      * rewrite lookup_insert_ne by done. by apply Hdisj.
    + intros ip. destruct (decide (next_hop = ip)) as [->|Hne].
      * intros _. apply Hreq. eauto.
      * rewrite lookup_insert_ne by done. apply Hreq.
  - split; simpl; rewrite ?count_if_app; simpl.
    + rewrite Htq, incr32_count. f_equal. lia.
    + rewrite Htp. f_equal. lia.
    + apply Forall_app. split; [done|]. constructor; [|constructor].
      apply request_call_well_formed.
    + intros ip Hip. destruct (decide (next_hop = ip)) as [->|Hne].
      * rewrite He in Hip. by destruct Hip.
      * rewrite lookup_insert_ne by done. by apply Hdisj.
    + intros ip Hip. apply Exists_app. destruct (decide (next_hop = ip)) as [->|Hne].
      * right. constructor.
        etrans; [apply (request_call_for ip (mac_ s) inet ip)|by apply bool_decide_eq_true].
      * rewrite lookup_insert_ne in Hip by done. left. by apply Hreq.
Qed.

Lemma Bookkeeping_resolve_timer_fires inet s :
  Bookkeeping s → Bookkeeping (resolve_timer_fires inet s).
Proof.
  intros HB. unfold resolve_timer_fires.
  destruct (is_running (resolve_timer_ s)); [|done].
  destruct HB as [Htq Htp Hcalls Hdisj Hreq].
  destruct (resolve_waiting_effect inet (set_resolve_timer Timer_stop s))
    as (Hc & Hw & Hmac & _ & _ & _ & Htp1 & Htq1 & Hl).
  simpl in Hc, Hw, Hmac, Htp1, Htq1, Hl.
  set (calls := if decide (waiting_packets_ s = ∅) then []
                else (λ it, request_call (mac_ s) inet it.1) <$> map_to_list (waiting_packets_ s))
    in *.
  assert (count_if is_arp_request calls = length calls ∧ count_if is_arp_reply calls = 0 ∧
          Forall (well_formed_call (mac_ s)) calls) as (Hn1 & Hn2 & Hwf).
  { subst calls. destruct (decide (waiting_packets_ s = ∅)); [by repeat split|].
    destruct (count_requests_sent (mac_ s) inet (map_to_list (waiting_packets_ s))) as [-> ->].
    rewrite length_fmap. split; [done|]. split; [done|].
    apply Forall_fmap, Forall_forall. intros it _. apply request_call_well_formed. }
  split.
  - rewrite Htq1, Htq, Hl, count_if_app, Hn1. apply incr32_iter.
  - rewrite Htp1, Htp, Hl, count_if_app, Hn2. f_equal. lia.
  - rewrite Hmac, Hl. apply Forall_app. by split.
  - intros ip. rewrite Hc, Hw. apply Hdisj.
  - intros ip. rewrite Hw, Hl. intros Hip. apply Exists_app. left. by apply Hreq.
Qed.

Lemma Bookkeeping_flush_timer_fires inet s :
  Bookkeeping s → Bookkeeping (flush_timer_fires inet s).
Proof.
  intros HB. unfold flush_timer_fires.
  destruct (is_running (flush_timer_ s)); [|done].
  destruct HB as [Htq Htp Hcalls Hdisj Hreq].
  destruct (flush_expired_effect inet (set_flush_timer Timer_stop s))
    as (Hc & _ & Hl & Hw & _ & _ & Htq1 & _ & Htp1 & Hmac & _).
  simpl in Hc, Hl, Hw, Htq1, Htp1, Hmac.
  split; rewrite ?Htq1, ?Htp1, ?Hmac, ?Hl, ?Hw; try done.
  intros ip [e He]. rewrite Hc in He. apply map_lookup_filter_Some in He as [He _].
  apply Hdisj. eauto.
Qed.

Lemma Bookkeeping_step op s s' :
  Inv s → Bookkeeping s → step op s = Ok s' → Bookkeeping s'.
Proof.
  intros HI HB. destruct op; simpl.
  - by apply Bookkeeping_receive.
  - by apply Bookkeeping_transmit.
  - intros [= <-]. by apply Bookkeeping_resolve_timer_fires.
  - intros [= <-]. by apply Bookkeeping_flush_timer_fires.
  - intros [= <-]. by destruct HB.
Qed.

Lemma Bookkeeping_run ops s s' :
  Inv s → Bookkeeping s → run ops s = Ok s' → Bookkeeping s'.
Proof.
  revert s. induction ops as [|op ops IH]; intros s HI HB; simpl.
  - by intros [= <-].
  - destruct (step op s) as [s1|] eqn:Hstep; simpl; [|done].
    apply IH; [by eapply Inv_step|by eapply Bookkeeping_step].
Qed.

Lemma Bookkeeping_reachable s : reachable s → Bookkeeping s.
Proof.
  intros (m & fi & ops & Hrun).
  eapply Bookkeeping_run; [apply Inv_init|apply Bookkeeping_init|done].
Qed.

Lemma reachable_two_packets_queued : reachable (state_after two_packets_queued).
Proof. exists mac_01, 300%Z, two_packets_queued. vm_compute. reflexivity. Qed.

Lemma reachable_miss_then_reply : reachable (state_after miss_then_reply).
Proof. exists mac_01, 300%Z, miss_then_reply. vm_compute. reflexivity. Qed.

(** The MAC captured at construction is never changed. *)
Lemma run_mac ops s0 s : Inv s0 → run ops s0 = Ok s → mac_ s = mac_ s0.
Proof.
  revert s0. induction ops as [|op ops IH]; intros s0 HI; simpl.
  - by intros [= <-].
  - destruct (step op s0) as [s1|] eqn:Hstep; simpl; [|done].
    intros Hrun. rewrite (IH s1) by (by try eapply Inv_step).
    destruct op as [inet pckt|inet pckt next_hop|inet|inet|p]; simpl in Hstep.
    + destruct (receive_effect inet pckt s0 HI) as (s' & Hrcv & Heff).
      rewrite Hstep in Hrcv. injection Hrcv as <-. apply Heff.
    + unfold transmit, await_resolution in Hstep.
      repeat case_match; try done; by injection Hstep as <-.
    + injection Hstep as <-. unfold resolve_timer_fires. case_match; [|done].
      by destruct (resolve_waiting_effect inet (set_resolve_timer Timer_stop s0))
        as (_ & _ & -> & _).
    + injection Hstep as <-. unfold flush_timer_fires. case_match; [|done].
      by destruct (flush_expired_effect inet (set_flush_timer Timer_stop s0))
        as (_ & _ & _ & _ & _ & _ & _ & _ & _ & -> & _).
    + by injection Hstep as <-.
Qed.

(** ** Further properties of the module *)

(** X1: [flush_expired] erases exactly the entries that are expired at the
    time of the sweep and keeps every other entry as it is; it arms the
    flush timer again, at [flush_interval_], exactly when an entry is left;
    it makes no call on the link and leaves the waiting packets, the
    statistics, the proxy and the resolve timer alone. *)
Theorem flush_expired_exact inet s :
  let s' := flush_expired inet s in
  let expired e := Cache_entry_expired (time_since_boot inet) (flush_interval_ s) e in
  cache_ s' = filter (λ ent, expired ent.2 = false) (cache_ s) ∧
  flush_timer_ s' =
    (if decide (cache_ s' = ∅) then flush_timer_ s else Timer_armed (flush_interval_ s)) ∧
  linklayer_out_ s' = linklayer_out_ s ∧ waiting_packets_ s' = waiting_packets_ s ∧
  resolve_timer_ s' = resolve_timer_ s ∧
  requests_rx_ s' = requests_rx_ s ∧ requests_tx_ s' = requests_tx_ s ∧
  replies_rx_ s' = replies_rx_ s ∧ replies_tx_ s' = replies_tx_ s ∧
  mac_ s' = mac_ s ∧ proxy_ s' = proxy_ s.
Proof. apply flush_expired_effect. Qed.

(** X2: in every reachable state [requests_tx] is the number of ARP requests
    handed to the link so far and [replies_tx] the number of ARP replies, both
    as 32-bit counters (modulo 2^32): no request or reply leaves uncounted
    and none is counted that did not leave. *)
Theorem tx_statistics_match_link s :
  reachable s →
  requests_tx_ s = (Z.of_nat (count_if is_arp_request (linklayer_out_ s)) mod 2 ^ 32)%Z ∧
  replies_tx_ s = (Z.of_nat (count_if is_arp_reply (linklayer_out_ s)) mod 2 ^ 32)%Z.
Proof.
  intros Hreach. destruct (Bookkeeping_reachable s Hreach) as [Htq Htp _ _ _]. done.
Qed.

Lemma tx_statistics_match_link_witness :
  reachable (state_after two_packets_queued) ∧
  requests_tx_ (state_after two_packets_queued) = 2%Z ∧
  replies_tx_ (state_after two_packets_queued) = 0%Z.
Proof.
  split; [apply reachable_two_packets_queued|].
  apply (tx_statistics_match_link (state_after two_packets_queued)
           reachable_two_packets_queued).
Defined.

(** X4: every call the module has made on the link is of one of three
    kinds: a packet of non-zero size sent as IPv4; an ARP request of 28
    bytes carrying the module's own MAC as sender, sent to the broadcast MAC;
    or an ARP reply of 28 bytes carrying the module's own MAC as sender, sent
    to the MAC it names as its target.  The module's MAC is the one it was
    constructed with. *)
Theorem link_calls_well_formed link_addr flush_interval ops s :
  run ops (Arp_init link_addr flush_interval) = Ok s →
  mac_ s = link_addr ∧ Forall (well_formed_call link_addr) (linklayer_out_ s).
Proof.
  intros Hrun.
  pose proof (run_mac ops _ s (Inv_init link_addr flush_interval) Hrun) as Hmac.
  simpl in Hmac.
  split; [done|]. rewrite <- Hmac.
  apply Bookkeeping_reachable. by exists link_addr, flush_interval, ops.
Qed.

Lemma link_calls_well_formed_witness :
  run two_packets_queued (Arp_init mac_01 300) = Ok (state_after two_packets_queued) ∧
  mac_ (state_after two_packets_queued) = mac_01 ∧
  Forall (well_formed_call mac_01) (linklayer_out_ (state_after two_packets_queued)).
Proof.
  assert (run two_packets_queued (Arp_init mac_01 300) = Ok (state_after two_packets_queued))
    as Hrun by (vm_compute; reflexivity).
  split; [exact Hrun|].
  apply (link_calls_well_formed mac_01 300 two_packets_queued
           (state_after two_packets_queued) Hrun).
Defined.

(** X5: in every reachable state no address has both a cache entry and
    packets waiting for its resolution. *)
Theorem cached_is_not_waiting s ip :
  reachable s → is_Some (cache_ s !! ip) → waiting_packets_ s !! ip = None.
Proof.
  intros Hreach. destruct (Bookkeeping_reachable s Hreach) as [_ _ _ Hdisj _]. apply Hdisj.
Qed.

Lemma cached_is_not_waiting_witness :
  reachable (state_after miss_then_reply) ∧
  is_Some (cache_ (state_after miss_then_reply) !! ip_10_0_0_3) ∧
  waiting_packets_ (state_after miss_then_reply) !! ip_10_0_0_3 = None.
Proof.
  assert (is_Some (cache_ (state_after miss_then_reply) !! ip_10_0_0_3))
    as Hsome by (vm_compute; eexists; reflexivity).
  split; [apply reachable_miss_then_reply|]. split; [exact Hsome|].
  apply (cached_is_not_waiting (state_after miss_then_reply) ip_10_0_0_3
           reachable_miss_then_reply Hsome).
Defined.

(** X6: in every reachable state nothing waits for the broadcast address,
    and the head of every waiting chain has a size other than zero, so the
    [Expects] of [transmit] holds for it when [receive] drains it. *)
Theorem waiting_packets_sound s :
  reachable s →
  waiting_packets_ s !! ADDR_BCAST = None ∧
  ∀ ip waiting, waiting_packets_ s !! ip = Some waiting → pckt_size waiting ≠ 0%Z.
Proof.
  intros Hreach. destruct (Inv_reachable s Hreach) as [_ _ Hs Hb]. done.
Qed.

Lemma waiting_packets_sound_witness :
  reachable (state_after two_packets_queued) ∧
  waiting_packets_ (state_after two_packets_queued) !! ADDR_BCAST = None ∧
  ∀ ip waiting, waiting_packets_ (state_after two_packets_queued) !! ip = Some waiting →
                pckt_size waiting ≠ 0%Z.
Proof.
  split; [apply reachable_two_packets_queued|].
  apply (waiting_packets_sound (state_after two_packets_queued)
           reachable_two_packets_queued).
Defined.

Lemma transmit_rx inet pckt next_hop s s' :
  transmit inet pckt next_hop s = Ok s' →
  requests_rx_ s' = requests_rx_ s ∧ replies_rx_ s' = replies_rx_ s.
Proof.
  unfold transmit, await_resolution.
  repeat case_match; try done; by intros [= <-].
Qed.

Lemma step_rx op s s' :
  Inv s → step op s = Ok s' →
  requests_rx_ s' =
    (if is_received H_request op then incr32 (requests_rx_ s) else requests_rx_ s) ∧
  replies_rx_ s' =
    (if is_received H_reply op then incr32 (replies_rx_ s) else replies_rx_ s).
Proof.
  intros HI. destruct op as [inet pckt|inet pckt next_hop|inet|inet|p]; simpl.
  - intros Hstep. destruct (receive_effect inet pckt s HI) as (s1 & Hrcv & Heff).
    rewrite Hstep in Hrcv. injection Hrcv as <-.
    destruct Heff as (_ & _ & _ & _ & _ & Hrq & Hrp & _). done.
  - apply transmit_rx.
  - intros [= <-]. unfold resolve_timer_fires. case_match; [|done].
    by destruct (resolve_waiting_effect inet (set_resolve_timer Timer_stop s))
      as (_ & _ & _ & _ & -> & -> & _).
  - intros [= <-]. unfold flush_timer_fires. case_match; [|done].
    by destruct (flush_expired_effect inet (set_flush_timer Timer_stop s))
      as (_ & _ & _ & _ & _ & -> & _ & -> & _).
  - by intros [= <-].
Qed.

Lemma run_rx ops s s' :
  Inv s → run ops s = Ok s' →
  requests_rx_ s' = Nat.iter (count_if (is_received H_request) ops) incr32 (requests_rx_ s) ∧
  replies_rx_ s' = Nat.iter (count_if (is_received H_reply) ops) incr32 (replies_rx_ s).
Proof.
  revert s. induction ops as [|op ops IH]; intros s HI.
  - simpl. by intros [= <-].
  - cbn [run]. destruct (step op s) as [s1|] eqn:Hstep; [|done].
    intros Hrun. destruct (step_rx op s s1 HI Hstep) as [Hrq Hrp].
    destruct (IH s1 (Inv_step op s s1 HI Hstep) Hrun) as [-> ->].
    rewrite Hrq, Hrp. cbn [count_if].
    rewrite !(Nat.add_comm _ (count_if _ ops)), !Nat.iter_add.
    by destruct (is_received H_request op), (is_received H_reply op).
Qed.

(** X3: after any run from a fresh module [requests_rx] is the number of
    frames received with the request opcode and [replies_rx] the number
    received with the reply opcode, as 32-bit counters (modulo 2^32); frames
    of another opcode, packets transmitted and timers count for neither. *)
Theorem rx_statistics_match_frames link_addr flush_interval ops s :
  run ops (Arp_init link_addr flush_interval) = Ok s →
  requests_rx_ s = (Z.of_nat (count_if (is_received H_request) ops) mod 2 ^ 32)%Z ∧
  replies_rx_ s = (Z.of_nat (count_if (is_received H_reply) ops) mod 2 ^ 32)%Z.
Proof.
  intros Hrun.
  destruct (run_rx ops _ s (Inv_init link_addr flush_interval) Hrun) as [-> ->].
  simpl. split; apply (incr32_iter _ 0).
Qed.

Lemma rx_statistics_match_frames_witness :
  run miss_then_reply (Arp_init mac_01 300) = Ok (state_after miss_then_reply) ∧
  requests_rx_ (state_after miss_then_reply) = 0%Z ∧
  replies_rx_ (state_after miss_then_reply) = 1%Z.
Proof.
  assert (run miss_then_reply (Arp_init mac_01 300) = Ok (state_after miss_then_reply))
    as Hrun by (vm_compute; reflexivity).
  split; [exact Hrun|].
  apply (rx_statistics_match_frames mac_01 300 miss_then_reply
           (state_after miss_then_reply) Hrun).
Defined.

(** X8: what [receive] learns, [transmit] uses.  After a frame from an
    address other than the broadcast address, a packet of non-zero size for
    that address is sent at once, to the MAC the frame gave as its sender's,
    as IPv4, whatever was cached for the address before; nothing is queued
    and no request is sent. *)
Theorem transmit_after_receive inet inet' pckt p s :
  Inv s →
  sipaddr (pckt_layer_begin pckt) ≠ ADDR_BCAST →
  pckt_size p ≠ 0%Z →
  ∃ s1 s2,
    receive inet pckt s = Ok s1 ∧
    transmit inet' p (sipaddr (pckt_layer_begin pckt)) s1 = Ok s2 ∧
    linklayer_out_ s2 =
      linklayer_out_ s1 ++
        [mk_Link_call p (shwaddr (pckt_layer_begin pckt)) Ethertype_IP4] ∧
    waiting_packets_ s2 = waiting_packets_ s1 ∧
    requests_tx_ s2 = requests_tx_ s1 ∧ cache_ s2 = cache_ s1.
Proof.
  intros HI Hb Hsz.
  destruct (receive_effect inet pckt s HI) as (s1 & Hrcv & Hc & _).
  exists s1. eexists. split; [done|].
  unfold transmit.
  rewrite (proj2 (Z.eqb_neq _ _) Hsz), (proj2 (Z.eqb_neq _ _) Hb).
  assert (cache_ s1 !! sipaddr (pckt_layer_begin pckt) =
          Some (mk_Cache_entry (shwaddr (pckt_layer_begin pckt)) (time_since_boot inet)))
    as -> by (rewrite Hc; apply lookup_insert_eq).
  done.
Qed.

Lemma transmit_after_receive_witness :
  Inv pending_arp ∧ ip_10_0_0_3 ≠ ADDR_BCAST ∧ pckt_size P2 ≠ 0%Z ∧
  ∃ s1 s2,
    receive (inet_at 100) (frame_from_3 H_reply ip_10_0_0_1 28) pending_arp = Ok s1 ∧
    transmit (inet_at 101) P2 ip_10_0_0_3 s1 = Ok s2 ∧
    linklayer_out_ s2 = linklayer_out_ s1 ++ [mk_Link_call P2 mac_03 Ethertype_IP4] ∧
    waiting_packets_ s2 = waiting_packets_ s1 ∧
    requests_tx_ s2 = requests_tx_ s1 ∧ cache_ s2 = cache_ s1.
Proof.
  split; [apply Inv_pending_arp|]. split; [done|]. split; [done|].
  apply (transmit_after_receive (inet_at 100) (inet_at 101)
           (frame_from_3 H_reply ip_10_0_0_1 28) P2 pending_arp);
    [apply Inv_pending_arp|done|done].
Defined.

(** ** The cache against the history of frames *)

Lemma last_frame_acc ip ops acc e :
  last_frame ip ops None = Some e → last_frame ip ops acc = Some e.
Proof.
  revert acc. induction ops as [|op ops IH]; intros acc; simpl; [done|].
  destruct op; try apply IH. case_decide; [done|apply IH].
Qed.

Lemma step_cache_lookup ip op s s' :
  Inv s → step op s = Ok s' →
  cache_ s' !! ip =
    match op with
    | Receive inet pckt =>
        if decide (sipaddr (pckt_layer_begin pckt) = ip) then
          Some (mk_Cache_entry (shwaddr (pckt_layer_begin pckt)) (time_since_boot inet))
        else cache_ s !! ip
    | _ => cache_ s !! ip
    end ∨
  (cache_ s' !! ip = None ∧ ∃ inet, op = Flush_timer inet).
Proof.
  intros HI. destruct op as [inet pckt|inet pckt next_hop|inet|inet|p]; simpl.
  - intros Hstep. destruct (receive_effect inet pckt s HI) as (s1 & Hrcv & Hc & _).
    rewrite Hstep in Hrcv. injection Hrcv as <-. left. rewrite Hc.
    case_decide as Hip.
    + subst ip. apply lookup_insert_eq.
    + by apply lookup_insert_ne.
  - intros Hstep. left. by rewrite (transmit_cache _ _ _ _ _ Hstep).
  - intros [= <-]. left. unfold resolve_timer_fires. case_match; [|done].
    by destruct (resolve_waiting_effect inet (set_resolve_timer Timer_stop s)) as (-> & _).
  - intros [= <-]. unfold flush_timer_fires. case_match; [|by left].
    destruct (flush_expired_effect inet (set_flush_timer Timer_stop s)) as (Hc & _).
    simpl in Hc. rewrite Hc.
    destruct (filter _ (cache_ s) !! ip) as [e|] eqn:He.
    + left. by apply map_lookup_filter_Some in He as [-> _].
    + right. split; [done|]. by exists inet.
  - intros [= <-]. by left.
Qed.

Lemma run_last_frame ip ops s0 s e :
  Inv s0 → run ops s0 = Ok s → cache_ s !! ip = Some e →
  last_frame ip ops (cache_ s0 !! ip) = Some e.
Proof.
  revert s0. induction ops as [|op ops IH]; intros s0 HI.
  - simpl. by intros [= <-].
  - cbn [run]. destruct (step op s0) as [s1|] eqn:Hstep; [|done].
    intros Hrun He.
    pose proof (IH s1 (Inv_step op s0 s1 HI Hstep) Hrun He) as Hlast.
    destruct (step_cache_lookup ip op s0 s1 HI Hstep) as [Hc|[Hc [inet ->]]].
    + rewrite Hc in Hlast. destruct op; try done. simpl. by case_decide.
    + rewrite Hc in Hlast. simpl. by apply last_frame_acc.
Qed.

(** X9: after any run from a fresh module, a cache entry for an address
    holds the sender MAC of the last frame received from that address and
    the time at which that frame was received: the latest speaker wins, and
    neither [transmit] nor a timer changes what an entry says. *)
Theorem cache_entry_is_last_frame link_addr flush_interval ops s ip e :
  run ops (Arp_init link_addr flush_interval) = Ok s →
  cache_ s !! ip = Some e →
  last_frame ip ops None = Some e.
Proof.
  intros Hrun He.
  apply (run_last_frame ip ops _ s e (Inv_init link_addr flush_interval) Hrun He).
Qed.

Lemma cache_entry_is_last_frame_witness :
  run miss_then_reply (Arp_init mac_01 300) = Ok (state_after miss_then_reply) ∧
  cache_ (state_after miss_then_reply) !! ip_10_0_0_3 = Some (mk_Cache_entry mac_03 100) ∧
  last_frame ip_10_0_0_3 miss_then_reply None = Some (mk_Cache_entry mac_03 100).
Proof.
  assert (run miss_then_reply (Arp_init mac_01 300) = Ok (state_after miss_then_reply))
    as Hrun by (vm_compute; reflexivity).
  assert (cache_ (state_after miss_then_reply) !! ip_10_0_0_3 =
          Some (mk_Cache_entry mac_03 100)) as He by (vm_compute; reflexivity).
  split; [exact Hrun|]. split; [exact He|].
  apply (cache_entry_is_last_frame mac_01 300 miss_then_reply
           (state_after miss_then_reply) ip_10_0_0_3 (mk_Cache_entry mac_03 100) Hrun He).
Defined.

(** X10: one frame makes [receive] call the link at most twice and never
    with a request: once, as IPv4, exactly when packets waited for the
    sender, and once with an ARP reply exactly when the frame is a request
    whose target is the local address or is accepted by the proxy.  That
    reply always names the requested target as its sender IPv4 and the
    module's MAC as its sender MAC, and goes to the requester's MAC.  A frame
    that is not a request, a reply in particular, is never answered. *)
Theorem receive_calls inet pckt s :
  Inv s →
  let hdr := pckt_layer_begin pckt in
  ∃ s' calls,
    receive inet pckt s = Ok s' ∧
    linklayer_out_ s' = linklayer_out_ s ++ calls ∧
    count_if is_arp_request calls = 0 ∧
    count_if is_arp_reply calls = (if responds inet hdr s then 1 else 0) ∧
    count_if is_ip4_call calls = (if is_pending s (sipaddr hdr) then 1 else 0) ∧
    length calls = count_if is_arp_reply calls + count_if is_ip4_call calls ∧
    Forall (λ c, call_type c = Ethertype_ARP →
                 is_reply_from (dipaddr hdr) (mac_ s) (shwaddr hdr) c) calls ∧
    (opcode hdr ≠ H_request → Forall (λ c, call_type c = Ethertype_IP4) calls).
Proof.
  intros HI hdr.
  destruct (receive_effect inet pckt s HI) as (s' & Hrcv & _ & _ & Hl & _).
  fold hdr in Hl. eexists s', _. split; [done|]. split; [exact Hl|].
  assert (opcode hdr ≠ H_request → responds inet hdr s = false) as Hnoreq.
  { intros Hne. unfold responds. by rewrite (proj2 (Z.eqb_neq _ _) Hne). }
  unfold is_pending.
  destruct (waiting_packets_ s !! sipaddr hdr) as [w|] eqn:Hq;
    destruct (responds inet hdr s) eqn:Hresp; simpl;
    rewrite ?(bool_decide_eq_true_2 (is_Some (Some w))) by eauto;
    rewrite ?(bool_decide_eq_false_2 (is_Some None)) by (by intros [? ?]);
    (split; [done|]); (split; [done|]); (split; [done|]); (split; [done|]); split.
  all: try (intros Hne; specialize (Hnoreq Hne); try done).
  all: repeat constructor; try done.
Qed.

Lemma receive_calls_witness :
  Inv pending_arp ∧
  ∃ s' calls,
    receive (inet_at 100) (frame_from_3 H_request ip_10_0_0_1 28) pending_arp = Ok s' ∧
    linklayer_out_ s' = linklayer_out_ pending_arp ++ calls ∧
    count_if is_arp_request calls = 0 ∧
    count_if is_arp_reply calls = 1 ∧
    count_if is_ip4_call calls = 1 ∧
    length calls = count_if is_arp_reply calls + count_if is_ip4_call calls ∧
    Forall (λ c, call_type c = Ethertype_ARP →
                 is_reply_from ip_10_0_0_1 mac_01 mac_03 c) calls ∧
    (H_request ≠ H_request → Forall (λ c, call_type c = Ethertype_IP4) calls).
Proof.
  split; [apply Inv_pending_arp|].
  apply (receive_calls (inet_at 100) (frame_from_3 H_request ip_10_0_0_1 28) pending_arp).
  apply Inv_pending_arp.
Defined.

(** X11: from a state that satisfies the invariant, a run returns exactly
    when every packet it offers to [transmit] has a size other than zero.
    [receive] and the timers never violate a contract, although [receive]
    calls [transmit] on what was waiting. *)
Theorem run_returns_iff ops s :
  Inv s →
  (∃ s', run ops s = Ok s') ↔ Forall meets_precondition ops.
Proof.
  revert s. induction ops as [|op ops IH]; intros s HI.
  - split; [constructor|]. intros _. by exists s.
  - cbn [run]. split.
    + intros [s' Hrun]. destruct (step op s) as [s1|] eqn:Hstep; [|done].
      constructor.
      * destruct op as [| inet pckt next_hop | | |]; try done. simpl in *.
        unfold transmit in Hstep. intros Hsz. by rewrite Hsz in Hstep.
      * apply (IH s1 (Inv_step op s s1 HI Hstep)). by exists s'.
    + intros [Hop Hops]%Forall_cons.
      assert (∃ s1, step op s = Ok s1) as [s1 Hstep].
      { destruct op as [inet pckt|inet pckt next_hop|inet|inet|p]; simpl in *; eauto.
        - destruct (receive_effect inet pckt s HI) as (s1 & Hrcv & _). eauto.
        - unfold transmit. rewrite (proj2 (Z.eqb_neq _ _) Hop).
          repeat case_match; eauto. }
      rewrite Hstep. apply (IH s1 (Inv_step op s s1 HI Hstep)). done.
Qed.

Lemma run_returns_iff_witness :
  Inv fresh_arp ∧
  ((∃ s', run two_packets_queued fresh_arp = Ok s') ↔
   Forall meets_precondition two_packets_queued).
Proof.
  split; [apply Inv_init|].
  apply (run_returns_iff two_packets_queued fresh_arp). apply Inv_init.
Defined.

(** X12: [resolve_waiting] sends exactly one ARP request for every address
    that has packets waiting and none for any other address, each to the
    broadcast MAC; [requests_tx] advances by the number of waiting addresses;
    the timer is armed again at one second, or stopped when nothing waits;
    the waiting packets and the cache stay as they are. *)
Theorem resolve_waiting_requests inet s :
  let s' := resolve_waiting inet s in
  ∃ calls,
    linklayer_out_ s' = linklayer_out_ s ++ calls ∧
    length calls = size (waiting_packets_ s) ∧
    (∀ ip, count_if (is_request_for ip) calls = if is_pending s ip then 1 else 0) ∧
    Forall (λ c, is_arp_request c = true ∧ call_dest c = MAC_BROADCAST) calls ∧
    requests_tx_ s' = Nat.iter (size (waiting_packets_ s)) incr32 (requests_tx_ s) ∧
    resolve_timer_ s' =
      (if decide (waiting_packets_ s = ∅) then Timer_stopped else Timer_armed 1) ∧
    waiting_packets_ s' = waiting_packets_ s ∧ cache_ s' = cache_ s.
Proof.
  intros s'. subst s'.
  exists ((λ it, request_call (mac_ s) inet it.1) <$> map_to_list (waiting_packets_ s)).
  assert (length ((λ it, request_call (mac_ s) inet it.1) <$> map_to_list (waiting_packets_ s))
          = size (waiting_packets_ s)) as Hlen.
  { by rewrite length_fmap, length_map_to_list. }
  split; [|split; [exact Hlen|split; [|split]]].
  - destruct (resolve_waiting_effect inet s) as (_ & _ & _ & _ & _ & _ & _ & _ & ->).
    destruct (decide (waiting_packets_ s = ∅)) as [Hemp|Hne]; [|done].
    by rewrite Hemp, map_to_list_empty.
  - intros ip. apply count_requests_resolve.
  - apply Forall_fmap, Forall_forall. by intros it _.
  - unfold resolve_waiting.
    destruct (decide (waiting_packets_ s = ∅)) as [Hemp|Hne]; simpl.
    + rewrite Hemp, map_size_empty. done.
    + pose proof (resolve_loop_tx inet (map_to_list (waiting_packets_ s)) s) as Htx.
      destruct (resolve_loop inet (map_to_list (waiting_packets_ s)) s)
        as (-> & -> & _).
      by rewrite Htx, length_map_to_list.
Qed.

(** X13: [receive] learns from the sender fields only.  A frame changes
    neither the cache entry nor the waiting packets of any address other
    than its sender IPv4, whatever its target fields and opcode say. *)
Theorem receive_leaves_others inet pckt s ip :
  Inv s →
  ip ≠ sipaddr (pckt_layer_begin pckt) →
  ∃ s',
    receive inet pckt s = Ok s' ∧
    cache_ s' !! ip = cache_ s !! ip ∧
    waiting_packets_ s' !! ip = waiting_packets_ s !! ip.
Proof.
  intros HI Hne.
  destruct (receive_effect inet pckt s HI) as (s' & Hrcv & Hc & Hw & _).
  exists s'. split; [done|]. rewrite Hc, Hw.
  by rewrite lookup_insert_ne, lookup_delete_ne.
Qed.

Lemma receive_leaves_others_witness :
  Inv pending_arp ∧
  ip_10_0_0_3 ≠ sipaddr (pckt_layer_begin (frame_from mac_01 ip_10_0_0_9 H_reply ip_10_0_0_3 28)) ∧
  ∃ s',
    receive (inet_at 100) (frame_from mac_01 ip_10_0_0_9 H_reply ip_10_0_0_3 28) pending_arp
      = Ok s' ∧
    cache_ s' !! ip_10_0_0_3 = cache_ pending_arp !! ip_10_0_0_3 ∧
    waiting_packets_ s' !! ip_10_0_0_3 = waiting_packets_ pending_arp !! ip_10_0_0_3.
Proof.
  split; [apply Inv_pending_arp|]. split; [done|].
  apply (receive_leaves_others (inet_at 100)
           (frame_from mac_01 ip_10_0_0_9 H_reply ip_10_0_0_3 28) pending_arp ip_10_0_0_3);
    [apply Inv_pending_arp|done].
Defined.

(** ** Runs, one operation at a time from the end *)

Lemma run_snoc ops op s s' :
  run (ops ++ [op]) s = Ok s' ↔ ∃ s1, run ops s = Ok s1 ∧ step op s1 = Ok s'.
Proof.
  revert s. induction ops as [|o ops IH]; intros s; simpl.
  - split.
    + destruct (step op s) as [s1|] eqn:Hstep; simpl; [|done].
      intros [= <-]. by exists s.
    + intros (s1 & [= <-] & ->). done.
  - destruct (step o s) as [s0|]; simpl.
    + apply IH.
    + split; [done|]. by intros (s1 & ? & _).
Qed.

Lemma step_link_grows op s s' :
  Inv s → step op s = Ok s' → ∃ out, linklayer_out_ s' = linklayer_out_ s ++ out.
Proof.
  intros HI. destruct op as [inet pckt|inet pckt next_hop|inet|inet|p]; simpl.
  - intros Hstep. destruct (receive_effect inet pckt s HI) as (s1 & Hrcv & _ & _ & Hl & _).
    rewrite Hstep in Hrcv. injection Hrcv as <-. eauto.
  - unfold transmit, await_resolution.
    repeat case_match; try done; intros [= <-]; simpl; eauto.
    exists []. by rewrite app_nil_r.
  - intros [= <-]. unfold resolve_timer_fires. case_match.
    + destruct (resolve_waiting_effect inet (set_resolve_timer Timer_stop s))
        as (_ & _ & _ & _ & _ & _ & _ & _ & Hl). eauto.
    + exists []. by rewrite app_nil_r.
  - intros [= <-]. unfold flush_timer_fires. case_match.
    + destruct (flush_expired_effect inet (set_flush_timer Timer_stop s))
        as (_ & _ & Hl & _). exists []. by rewrite app_nil_r.
    + exists []. by rewrite app_nil_r.
  - intros [= <-]. exists []. by rewrite app_nil_r.
Qed.

Lemma run_link_grows ops s s' :
  Inv s → run ops s = Ok s' → ∃ out, linklayer_out_ s' = linklayer_out_ s ++ out.
Proof.
  revert s. induction ops as [|op ops IH]; intros s HI; simpl.
  - intros [= <-]. exists []. by rewrite app_nil_r.
  - destruct (step op s) as [s1|] eqn:Hstep; simpl; [|done].
    intros Hrun. destruct (step_link_grows op s s1 HI Hstep) as [out1 Hl1].
    destruct (IH s1 (Inv_step op s s1 HI Hstep) Hrun) as [out Hl].
    exists (out1 ++ out). by rewrite Hl, Hl1, app_assoc.
Qed.

(** ** The resolve timer over an empty queue *)

(** What one operation does to the waiting packets and the resolve timer. *)
Lemma step_waiting_timer op s s' :
  Inv s → step op s = Ok s' →
  match op with
  | Receive inet pckt =>
      waiting_packets_ s' = delete (sipaddr (pckt_layer_begin pckt)) (waiting_packets_ s) ∧
      resolve_timer_ s' = resolve_timer_ s
  | Transmit _ _ _ =>
      (waiting_packets_ s' = waiting_packets_ s ∧ resolve_timer_ s' = resolve_timer_ s) ∨
      (waiting_packets_ s' ≠ ∅ ∧ is_running (resolve_timer_ s') = true)
  | Resolve_timer _ =>
      waiting_packets_ s' = waiting_packets_ s ∧
      (is_running (resolve_timer_ s') = true ↔ waiting_packets_ s' ≠ ∅)
  | _ => waiting_packets_ s' = waiting_packets_ s ∧ resolve_timer_ s' = resolve_timer_ s
  end.
Proof.
  intros HI. destruct op as [inet pckt|inet pckt next_hop|inet|inet|p]; simpl.
  - intros Hstep.
    destruct (receive_effect inet pckt s HI)
      as (s1 & Hrcv & _ & Hw & _ & _ & _ & _ & _ & _ & _ & Hrt & _).
    rewrite Hstep in Hrcv. by injection Hrcv as <-.
  - intros Htx. pose proof (Inv_transmit _ _ _ _ _ HI Htx) as HI'.
    revert Htx. unfold transmit.
    destruct (pckt_size pckt =? 0)%Z; [done|].
    destruct (next_hop =? ADDR_BCAST)%Z; [intros [= <-]; by left|].
    destruct (cache_ s !! next_hop); intros [= <-]; [by left|].
    right.
    assert (waiting_packets_ (await_resolution inet pckt next_hop s) ≠ ∅) as Hne.
    { intros Hemp.
      assert (is_Some (waiting_packets_ (await_resolution inet pckt next_hop s) !! next_hop))
        as [q Hq].
      { unfold await_resolution. destruct (waiting_packets_ s !! next_hop); simpl;
          rewrite lookup_insert_eq; eauto. }
      by rewrite Hemp, lookup_empty in Hq. }
    split; [done|]. by apply (Inv_resolve _ HI').
  - intros [= <-]. unfold resolve_timer_fires.
    destruct (is_running (resolve_timer_ s)) eqn:Hrun.
    + destruct (resolve_waiting_frame inet (set_resolve_timer Timer_stop s))
        as (_ & Hw & _ & _ & _ & Hrt & _).
      split; [done|]. rewrite Hw. apply Hrt.
    + split; [done|]. rewrite Hrun. split; [done|].
      intros Hne. apply (Inv_resolve s HI) in Hne. congruence.
  - intros [= <-]. unfold flush_timer_fires. case_match; [|done].
    by destruct (flush_expired_effect inet (set_flush_timer Timer_stop s))
      as (_ & _ & _ & -> & -> & _).
  - by intros [= <-].
Qed.

(** An armed resolve timer stays armed until it fires. *)
Lemma resolve_timer_stays post s s' :
  Inv s → is_running (resolve_timer_ s) = true →
  Forall (λ o, is_resolve_timer o = false) post →
  run post s = Ok s' → is_running (resolve_timer_ s') = true.
Proof.
  intros HI Hrun Hpost. revert s HI Hrun.
  induction Hpost as [|op post Hop Hpost IH]; intros s HI Hrun; simpl.
  - by intros [= <-].
  - destruct (step op s) as [s1|] eqn:Hstep; simpl; [|done].
    apply IH; [by eapply Inv_step|].
    pose proof (step_waiting_timer op s s1 HI Hstep) as Heff.
    destruct op; try done.
    + destruct Heff as [_ ->]. done.
    + destruct Heff as [[_ ->]|[_ ?]]; done.
    + destruct Heff as [_ ->]. done.
    + destruct Heff as [_ ->]. done.
Qed.

(** Where an armed resolve timer over an empty queue comes from. *)
Lemma lazy_stop_origin link_addr flush_interval ops s :
  run ops (Arp_init link_addr flush_interval) = Ok s →
  is_running (resolve_timer_ s) = true → waiting_packets_ s = ∅ →
  ∃ pre inet pckt post s0,
    ops = pre ++ Receive inet pckt :: post ∧
    run pre (Arp_init link_addr flush_interval) = Ok s0 ∧
    is_Some (waiting_packets_ s0 !! sipaddr (pckt_layer_begin pckt)) ∧
    Forall (λ o, is_resolve_timer o = false) post.
Proof.
  revert s. induction ops as [|op ops IH] using rev_ind; intros s.
  - simpl. by intros [= <-].
  - intros (s1 & Hrun & Hstep)%run_snoc Hrunning Hemp.
    pose proof (Inv_run _ _ _ (Inv_init link_addr flush_interval) Hrun) as HI.
    pose proof (step_waiting_timer op s1 s HI Hstep) as Heff.
    assert (waiting_packets_ s1 = waiting_packets_ s → resolve_timer_ s1 = resolve_timer_ s →
            is_resolve_timer op = false →
            ∃ pre inet pckt post s0,
              ops ++ [op] = pre ++ Receive inet pckt :: post ∧
              run pre (Arp_init link_addr flush_interval) = Ok s0 ∧
              is_Some (waiting_packets_ s0 !! sipaddr (pckt_layer_begin pckt)) ∧
              Forall (λ o, is_resolve_timer o = false) post) as Hsame.
    { intros Hw Hrt Hop.
      destruct (IH s1 Hrun) as (pre & inet & pckt & post & s0 & -> & Hpre & Hsome & Hpost).
      { by rewrite Hrt. } { by rewrite Hw. }
      exists pre, inet, pckt, (post ++ [op]), s0.
      split; [by rewrite <- app_assoc|]. split; [done|]. split; [done|].
      apply Forall_app. split; [done|]. by constructor. }
    destruct op as [inet pckt|inet pckt next_hop|inet|inet|p].
    + destruct Heff as [Hw Hrt].
      destruct (waiting_packets_ s1 !! sipaddr (pckt_layer_begin pckt)) as [w|] eqn:Hq.
      * exists ops, inet, pckt, [], s1. split; [done|]. split; [done|].
        split; [rewrite Hq; eauto|constructor].
      * apply Hsame; [|done|done]. rewrite Hw. by rewrite delete_id.
    + destruct Heff as [[Hw Hrt]|[Hne _]]; [by apply Hsame|done].
    + destruct Heff as [_ Hiff]. by apply Hiff in Hrunning.
    + destruct Heff as [Hw Hrt]. by apply Hsame.
    + destruct Heff as [Hw Hrt]. by apply Hsame.
Qed.

(** C5, as the code has it: after any run from a fresh module the flush
    timer is running exactly when the cache is not empty, and the resolve
    timer is running whenever packets are waiting.  The resolve timer is
    running over an empty queue only in one window: some [receive] of the run
    drained packets that waited for its sender, and the resolve timer has not
    fired since.  Throughout that window it does stay armed: once [receive]
    has drained a waiting chain the timer is running, and it keeps running
    over whatever follows until it fires.  When its callback has returned
    the resolve timer is running exactly when packets are waiting. *)
Theorem timers_track_data link_addr flush_interval ops s :
  run ops (Arp_init link_addr flush_interval) = Ok s →
  (is_running (flush_timer_ s) = true ↔ cache_ s ≠ ∅) ∧
  (waiting_packets_ s ≠ ∅ → is_running (resolve_timer_ s) = true) ∧
  (is_running (resolve_timer_ s) = true → waiting_packets_ s = ∅ →
   ∃ pre inet pckt post s0,
     ops = pre ++ Receive inet pckt :: post ∧
     run pre (Arp_init link_addr flush_interval) = Ok s0 ∧
     is_Some (waiting_packets_ s0 !! sipaddr (pckt_layer_begin pckt)) ∧
     Forall (λ o, is_resolve_timer o = false) post) ∧
  (∀ inet pckt post,
     is_Some (waiting_packets_ s !! sipaddr (pckt_layer_begin pckt)) →
     Forall (λ o, is_resolve_timer o = false) post →
     ∃ s1,
       receive inet pckt s = Ok s1 ∧ is_running (resolve_timer_ s1) = true ∧
       ∀ s2, run post s1 = Ok s2 → is_running (resolve_timer_ s2) = true) ∧
  (∀ inet,
     let s' := resolve_timer_fires inet s in
     is_running (resolve_timer_ s') = true ↔ waiting_packets_ s' ≠ ∅).
Proof.
  intros Hrun.
  pose proof (Inv_run _ _ _ (Inv_init link_addr flush_interval) Hrun) as HI.
  split; [apply (Inv_flush s HI)|]. split; [apply (Inv_resolve s HI)|].
  split; [by apply lazy_stop_origin|]. split.
  - intros inet pckt post [w Hw] Hpost.
    destruct (receive_effect inet pckt s HI)
      as (s1 & Hrcv & _ & _ & _ & _ & _ & _ & _ & _ & _ & Hrt & _).
    assert (is_running (resolve_timer_ s1) = true) as Hrunning.
    { rewrite Hrt. apply (Inv_resolve s HI). intros Hemp.
      by rewrite Hemp, lookup_empty in Hw. }
    exists s1. split; [done|]. split; [done|].
    intros s2 Hrun2.
    apply (resolve_timer_stays post s1 s2); try done. by eapply Inv_receive.
  - intros inet.
    by destruct (step_waiting_timer (Resolve_timer inet) s _ HI eq_refl) as [_ ?].
Qed.

Lemma timers_track_data_witness :
  run miss_then_reply (Arp_init mac_01 300) = Ok (state_after miss_then_reply) ∧
  (is_running (flush_timer_ (state_after miss_then_reply)) = true ↔
   cache_ (state_after miss_then_reply) ≠ ∅) ∧
  (waiting_packets_ (state_after miss_then_reply) ≠ ∅ →
   is_running (resolve_timer_ (state_after miss_then_reply)) = true) ∧
  (is_running (resolve_timer_ (state_after miss_then_reply)) = true →
   waiting_packets_ (state_after miss_then_reply) = ∅ →
   ∃ pre inet pckt post s0,
     miss_then_reply = pre ++ Receive inet pckt :: post ∧
     run pre (Arp_init mac_01 300) = Ok s0 ∧
     is_Some (waiting_packets_ s0 !! sipaddr (pckt_layer_begin pckt)) ∧
     Forall (λ o, is_resolve_timer o = false) post) ∧
  (∀ inet pckt post,
     is_Some (waiting_packets_ (state_after miss_then_reply)
                !! sipaddr (pckt_layer_begin pckt)) →
     Forall (λ o, is_resolve_timer o = false) post →
     ∃ s1,
       receive inet pckt (state_after miss_then_reply) = Ok s1 ∧
       is_running (resolve_timer_ s1) = true ∧
       ∀ s2, run post s1 = Ok s2 → is_running (resolve_timer_ s2) = true) ∧
  (∀ inet,
     let s' := resolve_timer_fires inet (state_after miss_then_reply) in
     is_running (resolve_timer_ s') = true ↔ waiting_packets_ s' ≠ ∅).
Proof.
  assert (run miss_then_reply (Arp_init mac_01 300) = Ok (state_after miss_then_reply))
    as Hrun by (vm_compute; reflexivity).
  split; [exact Hrun|].
  apply (timers_track_data mac_01 300 miss_then_reply (state_after miss_then_reply) Hrun).
Defined.

(** ** Where a waiting entry comes from *)

Lemma step_keeps_waiting ip op s s' :
  Inv s → step op s = Ok s' →
  is_Some (waiting_packets_ s !! ip) → is_Some (waiting_packets_ s' !! ip) →
  is_frame_from ip op = false.
Proof.
  intros HI Hstep _ Hsome. destruct op as [inet pckt| | | |]; try done. simpl.
  apply bool_decide_eq_false. intros Hip.
  destruct (step_waiting_timer _ s s' HI Hstep) as [Hw _].
  rewrite Hw, Hip, lookup_delete_eq in Hsome. by destruct Hsome.
Qed.

Lemma step_creates_waiting ip op s s' :
  Inv s → step op s = Ok s' →
  waiting_packets_ s !! ip = None → is_Some (waiting_packets_ s' !! ip) →
  ∃ inet pckt request,
    op = Transmit inet pckt ip ∧
    linklayer_out_ s' = linklayer_out_ s ++ [request] ∧
    is_request_for ip request = true ∧ call_dest request = MAC_BROADCAST.
Proof.
  intros HI Hstep Hnone Hsome.
  destruct op as [inet pckt|inet pckt next_hop|inet|inet|p].
  - destruct (step_waiting_timer _ s s' HI Hstep) as [Hw _].
    rewrite Hw in Hsome. destruct Hsome as [q Hq].
    apply lookup_delete_Some in Hq as [_ Hq]. congruence.
  - simpl in Hstep. unfold transmit in Hstep.
    destruct (pckt_size pckt =? 0)%Z; [done|].
    destruct (next_hop =? ADDR_BCAST)%Z.
    { injection Hstep as <-. simpl in Hsome. rewrite Hnone in Hsome. by destruct Hsome. }
    destruct (cache_ s !! next_hop).
    { injection Hstep as <-. simpl in Hsome. rewrite Hnone in Hsome. by destruct Hsome. }
    injection Hstep as <-. unfold await_resolution in *.
    destruct (decide (next_hop = ip)) as [->|Hne].
    + rewrite Hnone. simpl.
      exists inet, pckt, (request_call (mac_ s) inet ip).
      split; [done|]. split; [done|]. split; [|done].
      rewrite request_call_for. by apply bool_decide_eq_true.
    + destruct (waiting_packets_ s !! next_hop); simpl in Hsome;
        rewrite lookup_insert_ne, Hnone in Hsome by done; by destruct Hsome.
  - destruct (step_waiting_timer _ s s' HI Hstep) as [Hw _].
    rewrite Hw, Hnone in Hsome. by destruct Hsome.
  - destruct (step_waiting_timer _ s s' HI Hstep) as [Hw _].
    rewrite Hw, Hnone in Hsome. by destruct Hsome.
  - destruct (step_waiting_timer _ s s' HI Hstep) as [Hw _].
    rewrite Hw, Hnone in Hsome. by destruct Hsome.
Qed.

(** X7: a pending entry is never created without a resolution attempt.
    After any run from a fresh module, the entry of every address that has
    packets waiting was created by a [transmit] of the run for that address,
    made when nothing waited for it; that same call handed one ARP request
    for the address to the link, to the broadcast MAC, as its only call; no
    frame from the address has been received since; and the record of link
    calls has only grown since, so that request is in it. *)
Theorem waiting_was_requested link_addr flush_interval ops s ip :
  run ops (Arp_init link_addr flush_interval) = Ok s →
  is_Some (waiting_packets_ s !! ip) →
  ∃ pre inet pckt post s0 s1 request later,
    ops = pre ++ Transmit inet pckt ip :: post ∧
    run pre (Arp_init link_addr flush_interval) = Ok s0 ∧
    waiting_packets_ s0 !! ip = None ∧
    transmit inet pckt ip s0 = Ok s1 ∧
    linklayer_out_ s1 = linklayer_out_ s0 ++ [request] ∧
    is_request_for ip request = true ∧ call_dest request = MAC_BROADCAST ∧
    Forall (λ o, is_frame_from ip o = false) post ∧
    linklayer_out_ s = linklayer_out_ s1 ++ later.
Proof.
  revert s. induction ops as [|op ops IH] using rev_ind; intros s.
  - simpl. intros [= <-] [q Hq]. simpl in Hq. by rewrite lookup_empty in Hq.
  - intros (s1 & Hrun & Hstep)%run_snoc Hsome.
    pose proof (Inv_run _ _ _ (Inv_init link_addr flush_interval) Hrun) as HI.
    destruct (waiting_packets_ s1 !! ip) as [q|] eqn:Hq.
    + destruct (IH s1 Hrun) as
        (pre & inet & pckt & post & s0 & s0' & request & later &
         -> & Hpre & Hnone & Htx & Hl & Hreq & Hdest & Hpost & Hlater); [eauto|].
      destruct (step_link_grows op s1 s HI Hstep) as [out Hout].
      exists pre, inet, pckt, (post ++ [op]), s0, s0', request, (later ++ out).
      split; [by rewrite <- app_assoc|]. do 6 (split; [done|]).
      split.
      * apply Forall_app. split; [done|]. constructor; [|constructor].
        apply (step_keeps_waiting ip op s1 s HI Hstep); [rewrite Hq; eauto|done].
      * by rewrite Hout, Hlater, app_assoc.
    + destruct (step_creates_waiting ip op s1 s HI Hstep Hq Hsome)
        as (inet & pckt & request & -> & Hl & Hreq & Hdest).
      exists ops, inet, pckt, [], s1, s, request, [].
      split; [done|]. split; [done|]. split; [done|]. split; [exact Hstep|].
      split; [done|]. split; [done|]. split; [done|]. split; [constructor|].
      by rewrite app_nil_r.
Qed.

Lemma waiting_was_requested_witness :
  run two_packets_queued (Arp_init mac_01 300) = Ok (state_after two_packets_queued) ∧
  is_Some (waiting_packets_ (state_after two_packets_queued) !! ip_10_0_0_3) ∧
  ∃ pre inet pckt post s0 s1 request later,
    two_packets_queued = pre ++ Transmit inet pckt ip_10_0_0_3 :: post ∧
    run pre (Arp_init mac_01 300) = Ok s0 ∧
    waiting_packets_ s0 !! ip_10_0_0_3 = None ∧
    transmit inet pckt ip_10_0_0_3 s0 = Ok s1 ∧
    linklayer_out_ s1 = linklayer_out_ s0 ++ [request] ∧
    is_request_for ip_10_0_0_3 request = true ∧ call_dest request = MAC_BROADCAST ∧
    Forall (λ o, is_frame_from ip_10_0_0_3 o = false) post ∧
    linklayer_out_ (state_after two_packets_queued) = linklayer_out_ s1 ++ later.
Proof.
  assert (run two_packets_queued (Arp_init mac_01 300) = Ok (state_after two_packets_queued))
    as Hrun by (vm_compute; reflexivity).
  assert (is_Some (waiting_packets_ (state_after two_packets_queued) !! ip_10_0_0_3))
    as Hsome by (vm_compute; eexists; reflexivity).
  split; [exact Hrun|]. split; [exact Hsome|].
  apply (waiting_was_requested mac_01 300 two_packets_queued
           (state_after two_packets_queued) ip_10_0_0_3 Hrun Hsome).
Defined.
